(** * sora2_async_api: the storage layer and the API routes, embedded in Rocq

    The development follows the Python sources:
    - [src/core/models.py]   : the records [Token], [TokenStats], [Task] and the
      request / response models;
    - [src/core/database.py] : class [Database]; every method is a function on
      an explicit store (the PostgreSQL tables as lists of rows);
    - [src/api/routes.py]    : [_extract_remix_id], [get_task_status],
      [create_chat_completion], [generate_image], [create_character].

    Conventions.
    - A table is a [list] of rows in storage order.  [UPDATE ... WHERE c = v]
      rewrites every row whose column [c] equals [v]; [fetchrow] returns the
      first such row.
    - [CURRENT_TIMESTAMP], [datetime.now()] and [date.today()] are read from the
      environment: they are explicit arguments [now] and [today].
    - Python [int] is [Z]; [Optional[T]] is [option T]; a [datetime] is a point
      on an integer time line, a [date] a day number.
    - A Python [str] is a Rocq [string], read as its UTF-8 bytes. *)

From Stdlib Require Import List ZArith Bool Lia String Ascii QArith DecimalString.
From Stdlib Require Import Sorting.Sorted Sorting.Permutation.
Import ListNotations.

Local Open Scope string_scope.
Local Open Scope list_scope.
Local Open Scope Z_scope.

Set Implicit Arguments.

(** ** Primitive types *)

Definition datetime := Z.
Definition date := Z.

(** Python's truth value of an [Optional[str]]: [None] and the empty string
    are false. *)
Definition str_truthy (s : option string) : bool :=
  match s with
  | None => false
  | Some EmptyString => false
  | Some (String _ _) => true
  end.

Definition opt_eqb {A} (eqb : A -> A -> bool) (x y : option A) : bool :=
  match x, y with
  | None, None => true
  | Some a, Some b => eqb a b
  | _, _ => false
  end.

(** ** [models.py]: TokenStats *)

Module Stats.

Record TokenStats := mkTokenStats {
  id : option Z;
  token_id : Z;
  image_count : Z;
  video_count : Z;
  error_count : Z;              (* historical total errors (never reset) *)
  last_error_at : option datetime;
  today_image_count : Z;
  today_video_count : Z;
  today_error_count : Z;
  today_date : option date;
  consecutive_error_count : Z   (* consecutive errors for auto-disable *)
}.

(** The table [token_stats]. *)
Definition table := list TokenStats.

(** [conn.fetchrow("SELECT today_date FROM token_stats WHERE token_id = $1")]. *)
Definition fetchrow (tid : Z) (t : table) : option TokenStats :=
  find (fun r => token_id r =? tid) t.

(** [UPDATE token_stats SET ... WHERE token_id = $n]: [set] is the SET clause. *)
Definition update_where (tid : Z) (set : TokenStats -> TokenStats) (t : table) : table :=
  map (fun r => if token_id r =? tid then set r else r) t.

(** [if row and row['today_date'] != today]: the day has changed (a stored
    NULL differs from every date). *)
Definition date_changed (today : date) (row : option TokenStats) : bool :=
  match row with
  | None => false
  | Some r => negb (opt_eqb Z.eqb (today_date r) (Some today))
  end.

(** *** [Database.increment_image_count] *)

Definition set_image_rollover (today : date) (r : TokenStats) : TokenStats :=
  mkTokenStats (id r) (token_id r)
    (image_count r + 1) (video_count r) (error_count r) (last_error_at r)
    1 (today_video_count r) (today_error_count r)
    (Some today) (consecutive_error_count r).

Definition set_image_same_day (today : date) (r : TokenStats) : TokenStats :=
  mkTokenStats (id r) (token_id r)
    (image_count r + 1) (video_count r) (error_count r) (last_error_at r)
    (today_image_count r + 1) (today_video_count r) (today_error_count r)
    (Some today) (consecutive_error_count r).

Definition increment_image_count (today : date) (tid : Z) (t : table) : table :=
  if date_changed today (fetchrow tid t)
  then update_where tid (set_image_rollover today) t
  else update_where tid (set_image_same_day today) t.

(** *** [Database.increment_video_count] *)

Definition set_video_rollover (today : date) (r : TokenStats) : TokenStats :=
  mkTokenStats (id r) (token_id r)
    (image_count r) (video_count r + 1) (error_count r) (last_error_at r)
    (today_image_count r) 1 (today_error_count r)
    (Some today) (consecutive_error_count r).

Definition set_video_same_day (today : date) (r : TokenStats) : TokenStats :=
  mkTokenStats (id r) (token_id r)
    (image_count r) (video_count r + 1) (error_count r) (last_error_at r)
    (today_image_count r) (today_video_count r + 1) (today_error_count r)
    (Some today) (consecutive_error_count r).

Definition increment_video_count (today : date) (tid : Z) (t : table) : table :=
  if date_changed today (fetchrow tid t)
  then update_where tid (set_video_rollover today) t
  else update_where tid (set_video_same_day today) t.

(** *** [Database.increment_error_count]

    The four UPDATE statements of the source, one per branch. *)

Definition set_error_rollover_consecutive (today : date) (now : datetime)
    (r : TokenStats) : TokenStats :=
  mkTokenStats (id r) (token_id r)
    (image_count r) (video_count r) (error_count r + 1) (Some now)
    (today_image_count r) (today_video_count r) 1
    (Some today) (consecutive_error_count r + 1).

Definition set_error_rollover_plain (today : date) (now : datetime)
    (r : TokenStats) : TokenStats :=
  mkTokenStats (id r) (token_id r)
    (image_count r) (video_count r) (error_count r + 1) (Some now)
    (today_image_count r) (today_video_count r) 1
    (Some today) (consecutive_error_count r).

Definition set_error_same_day_consecutive (today : date) (now : datetime)
    (r : TokenStats) : TokenStats :=
  mkTokenStats (id r) (token_id r)
    (image_count r) (video_count r) (error_count r + 1) (Some now)
    (today_image_count r) (today_video_count r) (today_error_count r + 1)
    (Some today) (consecutive_error_count r + 1).

Definition set_error_same_day_plain (today : date) (now : datetime)
    (r : TokenStats) : TokenStats :=
  mkTokenStats (id r) (token_id r)
    (image_count r) (video_count r) (error_count r + 1) (Some now)
    (today_image_count r) (today_video_count r) (today_error_count r + 1)
    (Some today) (consecutive_error_count r).

Definition increment_error_count (today : date) (now : datetime) (tid : Z)
    (increment_consecutive : bool) (t : table) : table :=
  if date_changed today (fetchrow tid t)
  then
    if increment_consecutive
    then update_where tid (set_error_rollover_consecutive today now) t
    else update_where tid (set_error_rollover_plain today now) t
  else
    if increment_consecutive
    then update_where tid (set_error_same_day_consecutive today now) t
    else update_where tid (set_error_same_day_plain today now) t.

(** *** [Database.reset_error_count] *)

Definition set_reset_consecutive (r : TokenStats) : TokenStats :=
  mkTokenStats (id r) (token_id r)
    (image_count r) (video_count r) (error_count r) (last_error_at r)
    (today_image_count r) (today_video_count r) (today_error_count r)
    (today_date r) 0.

Definition reset_error_count (tid : Z) (t : table) : table :=
  update_where tid set_reset_consecutive t.

(** *** [Database.get_token_stats] *)

Definition get_token_stats (tid : Z) (t : table) : option TokenStats :=
  fetchrow tid t.

(** *** The stats operations as commands, and runs of them *)

Inductive stats_op :=
| IncrementImage (today : date) (tid : Z)
| IncrementVideo (today : date) (tid : Z)
| IncrementError (today : date) (now : datetime) (tid : Z) (increment_consecutive : bool)
| ResetError (tid : Z).

Definition run_op (o : stats_op) (t : table) : table :=
  match o with
  | IncrementImage today tid => increment_image_count today tid t
  | IncrementVideo today tid => increment_video_count today tid t
  | IncrementError today now tid ic => increment_error_count today now tid ic t
  | ResetError tid => reset_error_count tid t
  end.

Definition run_ops (ops : list stats_op) (t : table) : table :=
  fold_left (fun acc o => run_op o acc) ops t.

(** *** Vocabulary for the properties *)

(** A SET clause of the stats operations never touches the key column. *)
Definition keeps_token_id (set : TokenStats -> TokenStats) : Prop :=
  forall r, token_id (set r) = token_id r.

(** Each operation rewrites the rows of its token with one SET clause. *)
Definition clause_of (o : stats_op) (t : table) : TokenStats -> TokenStats :=
  match o with
  | IncrementImage today tid =>
      if date_changed today (fetchrow tid t)
      then set_image_rollover today else set_image_same_day today
  | IncrementVideo today tid =>
      if date_changed today (fetchrow tid t)
      then set_video_rollover today else set_video_same_day today
  | IncrementError today now tid ic =>
      if date_changed today (fetchrow tid t)
      then (if ic then set_error_rollover_consecutive today now
            else set_error_rollover_plain today now)
      else (if ic then set_error_same_day_consecutive today now
            else set_error_same_day_plain today now)
  | ResetError tid => set_reset_consecutive
  end.

Definition target_of (o : stats_op) : Z :=
  match o with
  | IncrementImage _ tid | IncrementVideo _ tid
  | IncrementError _ _ tid _ | ResetError tid => tid
  end.

(** The historical totals of [r'] are at least those of [r]. *)
Definition totals_le (r r' : TokenStats) : Prop :=
  image_count r <= image_count r' /\
  video_count r <= video_count r' /\
  error_count r <= error_count r'.

End Stats.

(** ** [models.py]: Token, and the [tokens] table *)

Module Tok.

Record Token := mkToken {
  id : option Z;
  token : string;
  email : string;
  name : option string;
  st : option string;
  rt : option string;
  client_id : option string;
  proxy_url : option string;
  remark : option string;
  expiry_time : option datetime;
  is_active : bool;
  cooled_until : option datetime;
  created_at : option datetime;
  last_used_at : option datetime;
  use_count : Z;
  plan_type : option string;
  plan_title : option string;
  subscription_end : option datetime;
  sora2_supported : option bool;
  sora2_invite_code : option string;
  sora2_redeemed_count : Z;
  sora2_total_count : Z;
  sora2_remaining_count : Z;
  sora2_cooldown_until : option datetime;
  image_enabled : bool;
  video_enabled : bool;
  image_concurrency : Z;        (* -1: no limit *)
  video_concurrency : Z;        (* -1: no limit *)
  is_expired : bool
}.

(** The table [tokens].  The column [username], which [add_token] always
    writes as the empty string and the [Token] model has no field for, is left
    out of the rows. *)
Definition table := list Token.

Definition has_id (tid : Z) (r : Token) : bool := opt_eqb Z.eqb (id r) (Some tid).

(** [UPDATE tokens SET ... WHERE id = $n]. *)
Definition update_where (tid : Z) (set : Token -> Token) (t : table) : table :=
  map (fun r => if has_id tid r then set r else r) t.

(** *** [Database.get_token] *)

Definition get_token (tid : Z) (t : table) : option Token :=
  find (has_id tid) t.

(** *** [Database.get_active_tokens]

    [WHERE is_active = TRUE
       AND (cooled_until IS NULL OR cooled_until < CURRENT_TIMESTAMP)
       AND (expiry_time IS NULL OR expiry_time > CURRENT_TIMESTAMP)
     ORDER BY last_used_at ASC NULLS FIRST] *)

Definition not_cooling (now : datetime) (r : Token) : bool :=
  match cooled_until r with
  | None => true
  | Some c => c <? now
  end.

Definition not_past_expiry (now : datetime) (r : Token) : bool :=
  match expiry_time r with
  | None => true
  | Some e => now <? e
  end.

Definition selectable (now : datetime) (r : Token) : bool :=
  is_active r && not_cooling now r && not_past_expiry now r.

(** The ORDER BY key: NULL sorts before every timestamp. *)
Definition last_used_leb (a b : Token) : bool :=
  match last_used_at a, last_used_at b with
  | None, _ => true
  | Some _, None => false
  | Some x, Some y => x <=? y
  end.

Fixpoint insert_by_last_used (r : Token) (l : list Token) : list Token :=
  match l with
  | [] => [r]
  | h :: tl =>
      if last_used_leb r h then r :: h :: tl
      else h :: insert_by_last_used r tl
  end.

(** The sort of the ORDER BY clause; rows with equal keys keep their storage
    order (PostgreSQL leaves the order of ties open). *)
Fixpoint order_by_last_used (l : list Token) : list Token :=
  match l with
  | [] => []
  | h :: tl => insert_by_last_used h (order_by_last_used tl)
  end.

Definition get_active_tokens (now : datetime) (t : table) : list Token :=
  order_by_last_used (filter (selectable now) t).

(** *** [Database.mark_token_expired]

    [UPDATE tokens SET is_expired = TRUE, is_active = FALSE WHERE id = $1] *)

Definition set_expired (r : Token) : Token :=
  mkToken (id r) (token r) (email r) (name r) (st r) (rt r) (client_id r)
    (proxy_url r) (remark r) (expiry_time r)
    false
    (cooled_until r) (created_at r) (last_used_at r) (use_count r)
    (plan_type r) (plan_title r) (subscription_end r)
    (sora2_supported r) (sora2_invite_code r) (sora2_redeemed_count r)
    (sora2_total_count r) (sora2_remaining_count r) (sora2_cooldown_until r)
    (image_enabled r) (video_enabled r) (image_concurrency r)
    (video_concurrency r)
    true.

Definition mark_token_expired (tid : Z) (t : table) : table :=
  update_where tid set_expired t.

(** *** Vocabulary for the properties *)

(** The ORDER BY relation, as a proposition. *)
Definition last_used_le (a b : Token) : Prop :=
  match last_used_at a, last_used_at b with
  | None, _ => True
  | Some _, None => False
  | Some x, Some y => x <= y
  end.

(** The columns [mark_token_expired] does not write. *)
Definition same_other_columns (r r' : Token) : Prop :=
  id r' = id r /\ token r' = token r /\ email r' = email r /\ name r' = name r /\
  st r' = st r /\ rt r' = rt r /\ client_id r' = client_id r /\
  proxy_url r' = proxy_url r /\ remark r' = remark r /\
  expiry_time r' = expiry_time r /\ cooled_until r' = cooled_until r /\
  created_at r' = created_at r /\ last_used_at r' = last_used_at r /\
  use_count r' = use_count r /\ plan_type r' = plan_type r /\
  plan_title r' = plan_title r /\ subscription_end r' = subscription_end r /\
  sora2_supported r' = sora2_supported r /\
  sora2_invite_code r' = sora2_invite_code r /\
  sora2_redeemed_count r' = sora2_redeemed_count r /\
  sora2_total_count r' = sora2_total_count r /\
  sora2_remaining_count r' = sora2_remaining_count r /\
  sora2_cooldown_until r' = sora2_cooldown_until r /\
  image_enabled r' = image_enabled r /\ video_enabled r' = video_enabled r /\
  image_concurrency r' = image_concurrency r /\
  video_concurrency r' = video_concurrency r.

End Tok.

(** ** The store, statements that can fail, and transactions *)

Module Db.

(** The two tables [add_token] and [delete_token] write, with the sequences
    behind their [id] columns. *)
Record store := mkStore {
  tokens : Tok.table;
  token_stats : Stats.table;
  tokens_id_seq : Z;
  token_stats_id_seq : Z
}.

Definition empty : store := mkStore [] [] 1 1.

(** What [asyncpg] raises when the server refuses or loses a statement. *)
Inductive db_error :=
| PostgresError (statement : string).

Inductive result (A : Type) :=
| Ok (a : A)
| Raised (e : db_error).

Arguments Ok {A} a.
Arguments Raised {A} e.

(** A database action: it reads and writes the store and returns or raises. *)
Definition action (A : Type) := store -> store * result A.

Definition ret {A} (a : A) : action A := fun s => (s, Ok a).

Definition bind {A B} (m : action A) (k : A -> action B) : action B :=
  fun s =>
    match m s with
    | (s', Ok a) => k a s'
    | (s', Raised e) => (s', Raised e)
    end.

Notation "x <- m ;; k" := (bind m (fun x => k))
  (at level 61, m at next level, right associativity).

(** [async with conn.transaction():] commits when the body returns and rolls
    the tables back when it raises; the exception goes on to the caller.
    Sequence values drawn inside the body are not given back. *)
Definition rollback (before after : store) : store :=
  mkStore (tokens before) (token_stats before)
          (tokens_id_seq after) (token_stats_id_seq after).

Definition transaction {A} (body : action A) : action A :=
  fun s =>
    match body s with
    | (s', Ok a) => (s', Ok a)
    | (s', Raised e) => (rollback s s', Raised e)
    end.

(** Whether the server carries a statement out is not decided by the code:
    [faults] says, for each of the two INSERTs of [add_token], whether it
    raises (a constraint violation, a lost connection, a timeout). *)
Record faults := mkFaults {
  insert_token_raises : bool;
  insert_stats_raises : bool
}.

Definition no_faults : faults := mkFaults false false.

(** Modelled from the spec: the column defaults of [schema.sql], which is not
    among the sources.  [INSERT INTO tokens] of [add_token] names 24 columns;
    the others take their defaults, here those of the [Token] model
    ([cooled_until], [last_used_at] NULL, [use_count] 0, [is_expired] FALSE)
    with [created_at] the time of the insert. *)
Definition new_token_row (new_id : Z) (now : datetime) (t : Tok.Token) : Tok.Token :=
  Tok.mkToken (Some new_id) (Tok.token t) (Tok.email t) (Tok.name t) (Tok.st t)
    (Tok.rt t) (Tok.client_id t) (Tok.proxy_url t) (Tok.remark t)
    (Tok.expiry_time t) (Tok.is_active t)
    None (Some now) None 0
    (Tok.plan_type t) (Tok.plan_title t) (Tok.subscription_end t)
    (Tok.sora2_supported t) (Tok.sora2_invite_code t)
    (Tok.sora2_redeemed_count t) (Tok.sora2_total_count t)
    (Tok.sora2_remaining_count t) (Tok.sora2_cooldown_until t)
    (Tok.image_enabled t) (Tok.video_enabled t)
    (Tok.image_concurrency t) (Tok.video_concurrency t)
    false.

(** Modelled from the spec: the column defaults of [token_stats] in
    [schema.sql], which is not among the sources.  [INSERT INTO token_stats
    (token_id)] gives only [token_id]; every counter takes its default, zero
    as in the [TokenStats] model, and the two nullable columns are NULL. *)
Definition new_stats_row (new_id : Z) (tid : Z) : Stats.TokenStats :=
  Stats.mkTokenStats (Some new_id) tid 0 0 0 None 0 0 0 None 0.

(** [INSERT INTO tokens (...) VALUES (...) RETURNING id] *)
Definition insert_token (f : faults) (now : datetime) (t : Tok.Token) : action Z :=
  fun s =>
    let new_id := tokens_id_seq s in
    let s1 := mkStore (tokens s) (token_stats s) (new_id + 1) (token_stats_id_seq s) in
    if insert_token_raises f
    then (s1, Raised (PostgresError "INSERT INTO tokens"))
    else (mkStore (tokens s ++ [new_token_row new_id now t]) (token_stats s)
                  (new_id + 1) (token_stats_id_seq s),
          Ok new_id).

(** [INSERT INTO token_stats (token_id) VALUES ($1)] *)
Definition insert_stats (f : faults) (tid : Z) : action unit :=
  fun s =>
    let new_id := token_stats_id_seq s in
    let s1 := mkStore (tokens s) (token_stats s) (tokens_id_seq s) (new_id + 1) in
    if insert_stats_raises f
    then (s1, Raised (PostgresError "INSERT INTO token_stats"))
    else (mkStore (tokens s) (token_stats s ++ [new_stats_row new_id tid])
                  (tokens_id_seq s) (new_id + 1),
          Ok tt).

(** *** [Database.add_token] *)
Definition add_token (f : faults) (now : datetime) (t : Tok.Token) : action Z :=
  transaction (
    token_id <- insert_token f now t ;;
    _ <- insert_stats f token_id ;;
    ret token_id).

(** *** [Database.delete_token]

    The two DELETE statements, taken as carried out by the server: a
    statement that fails is modelled for [add_token] only, so [delete_token]
    has no raising run here and the properties speak of the tables it
    leaves. *)
Definition delete_token (tid : Z) : action unit :=
  transaction (fun s =>
    (mkStore (filter (fun r => negb (Tok.has_id tid r)) (tokens s))
             (filter (fun r => negb (Stats.token_id r =? tid)) (token_stats s))
             (tokens_id_seq s) (token_stats_id_seq s),
     Ok tt)).

(** The stats rows of one credential. *)
Definition stats_of (tid : Z) (s : store) : list Stats.TokenStats :=
  filter (fun r => Stats.token_id r =? tid) (token_stats s).

(** The store invariant: every id in use was drawn from the sequence. *)
Definition ids_below_seq (s : store) : Prop :=
  Forall (fun r => exists i, Tok.id r = Some i /\ i < tokens_id_seq s) (tokens s) /\
  Forall (fun r => Stats.token_id r < tokens_id_seq s) (token_stats s).

(** The stores the two writers of [token_stats] build from the empty one. *)
Inductive reachable : store -> Prop :=
| reach_empty : reachable empty
| reach_add (f : faults) (now : datetime) (tok : Tok.Token) (s : store) :
    reachable s -> reachable (fst (add_token f now tok s))
| reach_delete (tid : Z) (s : store) :
    reachable s -> reachable (fst (delete_token tid s)).

End Db.

(** ** [models.py]: Task, and the [tasks] table *)

Module Tasks.

(** [progress] is a Python [float]; every finite float is a rational and the
    order of floats is the order of rationals, so it is carried as [Q]. *)
Record Task := mkTask {
  id : option Z;
  task_id : string;
  token_id : Z;
  model : string;
  prompt : string;
  status : string;              (* processing/completed/failed *)
  progress : Q;
  result_urls : option string;  (* JSON text *)
  error_message : option string;
  created_at : option datetime;
  completed_at : option datetime
}.

Definition table := list Task.

(** [status in ["completed", "failed"]] *)
Definition is_terminal (st : string) : bool :=
  String.eqb st "completed" || String.eqb st "failed".

(** *** [Database.update_task]

    [UPDATE tasks SET status = $1, progress = $2, result_urls = $3,
     error_message = $4, completed_at = $5 WHERE task_id = $6] *)
Definition set_task (now : datetime) (st : string) (pr : Q)
    (ru em : option string) (r : Task) : Task :=
  let completed := if is_terminal st then Some now else None in
  mkTask (id r) (task_id r) (token_id r) (model r) (prompt r)
    st pr ru em (created_at r) completed.

Definition update_task (now : datetime) (tid : string) (st : string) (pr : Q)
    (ru em : option string) (t : table) : table :=
  map (fun r => if String.eqb (task_id r) tid then set_task now st pr ru em r else r) t.

(** *** [Database.get_task] *)
Definition get_task (tid : string) (t : table) : option Task :=
  find (fun r => String.eqb (task_id r) tid) t.

(** One call of [update_task], with the clock reading it sees. *)
Record call := mkCall {
  at_time : datetime;
  on_task : string;
  new_status : string;
  new_progress : Q;
  new_result_urls : option string;
  new_error_message : option string
}.

Definition run_call (c : call) (t : table) : table :=
  update_task (at_time c) (on_task c) (new_status c) (new_progress c)
    (new_result_urls c) (new_error_message c) t.

(** What a reader of task [tid] sees after each call of a run. *)
Fixpoint history (tid : string) (calls : list call) (t : table) : list (option Task) :=
  match calls with
  | [] => []
  | c :: rest =>
      let t' := run_call c t in
      get_task tid t' :: history tid rest t'
  end.

(** The observations of a history that have the row in [processing]. *)
Fixpoint progress_while_processing (h : list (option Task)) : list Q :=
  match h with
  | [] => []
  | Some r :: rest =>
      if String.eqb (status r) "processing"
      then progress r :: progress_while_processing rest
      else progress_while_processing rest
  | None :: rest => progress_while_processing rest
  end.

Fixpoint non_decreasing (l : list Q) : Prop :=
  match l with
  | [] => True
  | x :: rest =>
      match rest with
      | [] => True
      | y :: _ => (x <= y)%Q /\ non_decreasing rest
      end
  end.

(** Number of steps of a status sequence that go from [processing] to a
    terminal status. *)
Fixpoint terminal_transitions (prev : string) (sts : list string) : nat :=
  match sts with
  | [] => O
  | st :: rest =>
      ((if String.eqb prev "processing" && is_terminal st then 1 else 0)
       + terminal_transitions st rest)%nat
  end.

Definition statuses (h : list (option Task)) : list string :=
  flat_map (fun o => match o with Some r => [status r] | None => [] end) h.

End Tasks.

(** ** JSON values, as [json.loads] returns them *)

Module Json.

#[warnings="-register-all"]
Inductive json :=
| JNull
| JBool (b : bool)
| JInt (n : Z)
| JFloat (q : Q)
| JStr (s : string)
| JArr (items : list json)
| JObj (fields : list (string * json)).

(** [isinstance(v, dict)], [isinstance(v, list)] *)
Definition is_dict (v : json) : bool :=
  match v with JObj _ => true | _ => false end.

Definition is_list (v : json) : bool :=
  match v with JArr _ => true | _ => false end.

(** Python's truth value. *)
Definition truthy (v : json) : bool :=
  match v with
  | JNull => false
  | JBool b => b
  | JInt n => negb (n =? 0)
  | JFloat q => negb (Qeq_bool q 0)
  | JStr EmptyString => false
  | JStr (String _ _) => true
  | JArr [] => false
  | JArr (_ :: _) => true
  | JObj [] => false
  | JObj (_ :: _) => true
  end.

(** [key in d] for a dict [d]. *)
Definition has_key (key : string) (v : json) : bool :=
  match v with
  | JObj fields => existsb (fun kv => String.eqb (fst kv) key) fields
  | _ => false
  end.

(** [d[key]] *)
Definition get_key (key : string) (v : json) : option json :=
  match v with
  | JObj fields =>
      option_map snd (find (fun kv => String.eqb (fst kv) key) fields)
  | _ => None
  end.

End Json.

(** ** Python string helpers used by the routes *)

Module Str.

(** [s.startswith(p)] *)
Definition startswith (p s : string) : bool := String.prefix p s.

Fixpoint drop (n : nat) (s : string) : string :=
  match n, s with
  | O, _ => s
  | S _, EmptyString => EmptyString
  | S k, String _ rest => drop k rest
  end.

(** The text after the first occurrence of [sep]: [s.split(sep, 1)[1]], and
    [None] when [sep in s] is false. *)
Fixpoint after_first (sep s : string) : option string :=
  if String.prefix sep s then Some (drop (String.length sep) s)
  else
    match s with
    | EmptyString => None
    | String _ rest => after_first sep rest
    end.

Definition newline : string := String "010" EmptyString.

End Str.

(** ** [routes.py]: [_extract_remix_id] *)

Module Remix.

(** The character class [[a-f0-9]]. *)
Definition is_hex_lower (c : ascii) : bool :=
  let n := N_of_ascii c in
  ((48 <=? n) && (n <=? 57) || (97 <=? n) && (n <=? 102))%N.

(** [[a-f0-9]{n}] at the head of [s]: the [n] characters it matches. *)
Fixpoint take_hex (n : nat) (s : string) : option string :=
  match n with
  | O => Some EmptyString
  | S k =>
      match s with
      | EmptyString => None
      | String c rest =>
          if is_hex_lower c
          then option_map (String c) (take_hex k rest)
          else None
      end
  end.

(** The pattern [s_[a-f0-9]{32}] anchored at the head of [s]. *)
Definition match_here (s : string) : option string :=
  match s with
  | String c1 (String c2 rest) =>
      if Ascii.eqb c1 "s" && Ascii.eqb c2 "_"
      then option_map (fun h => String "s" (String "_" h)) (take_hex 32 rest)
      else None
  | _ => None
  end.

(** [re.search(r's_[a-f0-9]{32}', text)]: the match at the leftmost position
    that has one; [match.group(0)] is the matched text. *)
Fixpoint re_search (text : string) : option string :=
  match match_here text with
  | Some m => Some m
  | None =>
      match text with
      | EmptyString => None
      | String _ rest => re_search rest
      end
  end.

Definition _extract_remix_id (text : string) : string :=
  match text with
  | EmptyString => EmptyString
  | _ =>
      match re_search text with
      | Some m => m
      | None => EmptyString
      end
  end.

(** The shape the docstring names: [s_] and 32 characters of [[a-f0-9]]. *)
Definition remix_shape (m : string) : Prop :=
  exists h, m = String "s" (String "_" h) /\
            String.length h = 32%nat /\
            Forall (fun c => is_hex_lower c = true) (list_ascii_of_string h).

End Remix.

(** ** [routes.py]: the endpoints *)

Module Routes.

Import Json.

(** *** Exceptions and responses *)

Inductive exn :=
| AttributeError (cls attr : string)
| KeyError (key : string)
| Exception (text : string).

(** [str(e)] *)
Definition str (e : exn) : string :=
  match e with
  | AttributeError cls attr =>
      "'" ++ cls ++ "' object has no attribute '" ++ attr ++ "'"
  | KeyError key => "'" ++ key ++ "'"
  | Exception text => text
  end.

(** The [detail] of an [HTTPException]: a text, or [str(e)] of the pydantic
    [ValidationError] raised for a field of a model. *)
Inductive detail :=
| Detail (text : string)
| ValidationErrorText (model field : string).

Inductive http_exception :=
| HTTPException (status_code : Z) (d : detail).

Inductive outcome (A : Type) :=
| Returns (a : A)
| Raises (e : http_exception).

Arguments Returns {A} a.
Arguments Raises {A} e.

Inductive response :=
| JSONResponse (status_code : Z) (content : json)
| StreamingResponse (body : list string).

(** The OpenAI-style error document of the routes. *)
Definition error_object (message : string) (type : string) (param : json) : json :=
  JObj [("error",
         JObj [("message", JStr message);
               ("type", JStr type);
               ("param", param);
               ("code", JNull)])].

Definition server_error (message : string) : json :=
  error_object message "server_error" JNull.

(** *** [models.py]: TaskStatusResponse *)

Record TaskStatusResponse := mkTaskStatusResponse {
  task_id : string;
  status : string;
  progress : Q;
  model : string;
  prompt : string;
  result_urls : option (list string);   (* Optional[List[str]] *)
  error_message : option string;
  created_at : option string;
  completed_at : option string
}.

(** Pydantic's validation of one element against [str]: a string passes.
    (Whether a number is turned into a string depends on the pydantic
    version; here it is refused, as by pydantic 2.) *)
Definition validate_str (v : json) : option string :=
  match v with
  | JStr s => Some s
  | _ => None
  end.

Fixpoint validate_list_str (items : list json) : option (list string) :=
  match items with
  | [] => Some []
  | v :: rest =>
      match validate_str v, validate_list_str rest with
      | Some s, Some l => Some (s :: l)
      | _, _ => None
      end
  end.

(** Pydantic's validation of the argument [result_urls] against
    [Optional[List[str]]]: [None] and a list of strings pass, anything else
    (a dict among them) raises [ValidationError]. *)
Definition validate_result_urls (v : option json) : option (option (list string)) :=
  match v with
  | None => Some None
  | Some (JArr items) => option_map Some (validate_list_str items)
  | Some _ => None
  end.

(** *** Generators of the generation handler

    What [handle_generation] and its siblings do as async generators: the
    chunks they yield, and whether they then finish or raise. *)
Inductive ending :=
| Finishes
| RaisesExn (e : exn).

Record generation := mkGeneration {
  chunks : list string;
  ends : ending
}.

(** The calls a route makes on the generation handler. *)
Inductive handler_call :=
| SubmitCharacterCreationTask (video_data : string)
| HandleCharacterCreationOnly (video_data : string).

(** [services/generation_handler.py] is not among the sources: the handler is
    what its methods return. *)
Record GenerationHandler := mkGenerationHandler {
  submit_character_creation_task : string -> json -> exn + (string * string);
  _handle_character_creation_only : string -> json -> generation
}.

(** *** Request models *)

Record CharacterCreateRequest := mkCharacterCreateRequest {
  video : string;
  stream : bool;
  async_mode : bool
}.

(** [request.timestamps]: [CharacterCreateRequest] declares [video], [stream]
    and [async_mode] only, and pydantic drops undeclared input, so the
    attribute read raises. *)
Definition request_timestamps (request : CharacterCreateRequest) : exn + json :=
  inl (AttributeError "CharacterCreateRequest" "timestamps").

Inductive content_item :=
| TextItem (text : string)          (* {"type": "text", "text": ...} *)
| ImageUrlItem (url : string)       (* {"type": "image_url", "image_url": {"url": ...}} *)
| VideoUrlItem (url : string)       (* {"type": "video_url", "video_url": {"url": ...}} *)
| OtherItem.

Inductive message_content :=
| ContentStr (text : string)
| ContentList (items : list content_item).

(** The texts of the [text] items of an array content, in the order of the
    array. *)
Fixpoint texts_of (items : list content_item) : list string :=
  match items with
  | [] => []
  | TextItem text :: rest => text :: texts_of rest
  | _ :: rest => texts_of rest
  end.

Section WithEnvironment.

(** [json.loads] ([None]: it raises), [json.dumps], [datetime.isoformat] and
    the table [MODEL_CONFIG] of [generation_handler.py], by model id with the
    value of ["type"]. *)
Variable json_loads : string -> option json.
Variable json_dumps : json -> string.
Variable isoformat : datetime -> string.
Variable MODEL_CONFIG : list (string * string).

(** *** [get_task_status] *)

(** Lines 106-123: the value of the local [result_urls]. *)
Definition read_result_urls (task : Tasks.Task) : option json :=
  match Tasks.result_urls task with
  | Some (String c rest) =>
      let stored := String c rest in
      match json_loads stored with
      | Some parsed_result =>
          if String.eqb (Tasks.model task) "character-creation"
          then
            if is_dict parsed_result then Some parsed_result
            else if is_list parsed_result then Some parsed_result
                 else Some (JArr [parsed_result])
          else
            if is_list parsed_result then Some parsed_result
            else Some (JArr [parsed_result])
      | None => Some (JArr [JStr stored])
      end
  | _ => None
  end.

Definition get_task_status (tasks : Tasks.table) (tid : string)
    : outcome TaskStatusResponse :=
  match Tasks.get_task tid tasks with
  | None => Raises (HTTPException 404 (Detail ("Task " ++ tid ++ " not found")))
  | Some task =>
      match validate_result_urls (read_result_urls task) with
      | Some urls =>
          Returns (mkTaskStatusResponse
                     (Tasks.task_id task) (Tasks.status task) (Tasks.progress task)
                     (Tasks.model task) (Tasks.prompt task)
                     urls
                     (Tasks.error_message task)
                     (option_map isoformat (Tasks.created_at task))
                     (option_map isoformat (Tasks.completed_at task)))
      | None =>
          Raises (HTTPException 500 (ValidationErrorText "TaskStatusResponse" "result_urls"))
      end
  end.

(** *** [create_chat_completion]: reading the last message (lines 156-204) *)

Record chat_inputs := mkChatInputs {
  chat_prompt : string;
  image_data : option string;
  video_data : option string;
  remix_target_id : option string;
  scanned : list string    (* the texts given to [_extract_remix_id], in order *)
}.

(** [if not remix_target_id: remix_target_id = _extract_remix_id(prompt)] *)
Definition fill_remix_target (text : string) (st : chat_inputs) : chat_inputs :=
  if str_truthy (remix_target_id st)
  then mkChatInputs text (image_data st) (video_data st) (remix_target_id st) (scanned st)
  else mkChatInputs text (image_data st) (video_data st)
         (Some (Remix._extract_remix_id text)) (scanned st ++ [text]).

Definition data_uri_payload (url : string) : string :=
  match Str.after_first "base64," url with
  | Some payload => payload
  | None => url
  end.

Definition read_item (st : chat_inputs) (item : content_item) : chat_inputs :=
  match item with
  | TextItem text => fill_remix_target text st
  | ImageUrlItem url =>
      if Str.startswith "data:image" url
      then mkChatInputs (chat_prompt st) (Some (data_uri_payload url)) (video_data st)
             (remix_target_id st) (scanned st)
      else st
  | VideoUrlItem url =>
      if Str.startswith "data:video" url || Str.startswith "data:application" url
      then mkChatInputs (chat_prompt st) (image_data st) (Some (data_uri_payload url))
             (remix_target_id st) (scanned st)
      else mkChatInputs (chat_prompt st) (image_data st) (Some url)
             (remix_target_id st) (scanned st)
  | OtherItem => st
  end.

Definition read_content (request_image request_video request_remix : option string)
    (content : message_content) : chat_inputs :=
  let st := mkChatInputs EmptyString request_image request_video request_remix [] in
  match content with
  | ContentStr text => fill_remix_target text st
  | ContentList items => fold_left read_item items st
  end.

(** *** The streaming bodies: [generate()] *)

Definition sse (payload : string) : string :=
  "data: " ++ payload ++ Str.newline ++ Str.newline.

Definition DONE : string := sse "[DONE]".

(** [create_chat_completion.generate], the handler of [except Exception as e]:
    the document sent for [str(e)]. *)
Definition chat_error_response (text : string) : json :=
  match json_loads text with
  | Some error_data =>
      if truthy error_data && is_dict error_data && has_key "error" error_data
      then error_data
      else server_error text
  | None => server_error text
  end.

Definition chat_generate (g : generation) : list string :=
  chunks g ++
  match ends g with
  | Finishes => []
  | RaisesExn e => [sse (json_dumps (chat_error_response (str e))); DONE]
  end.

(** [generate_image.generate] (the streaming bodies of the other dedicated
    endpoints are written the same way). *)
Definition image_generate (g : generation) : list string :=
  chunks g ++
  match ends g with
  | Finishes => []
  | RaisesExn e => [sse (json_dumps (server_error (str e))); DONE]
  end.

(** *** [create_character] *)

Definition strip_data_uri (video : string) : string :=
  if Str.startswith "http://" video || Str.startswith "https://" video
  then video
  else if Str.startswith "data:video" video || Str.startswith "data:application" video
       then data_uri_payload video
       else video.

Definition lookup_model (key : string) : exn + string :=
  match find (fun kv => String.eqb (fst kv) key) MODEL_CONFIG with
  | Some kv => inr (snd kv)
  | None => inl (KeyError key)
  end.

(** The last handler of the route: [except Exception as e]. *)
Definition character_route_failure (request : CharacterCreateRequest) (e : exn)
    : response :=
  if negb (stream request)
  then JSONResponse 500 (server_error (str e))
  else StreamingResponse [sse (json_dumps (server_error (str e))); DONE].

(** The streaming body of [create_character], and the handler calls it makes. *)
Definition character_generate (h : GenerationHandler)
    (request : CharacterCreateRequest) (video_data : string)
    : list string * list handler_call :=
  match request_timestamps request with
  | inl e => ([sse (json_dumps (server_error (str e))); DONE], [])
  | inr timestamps =>
      let g := _handle_character_creation_only h video_data timestamps in
      (chunks g ++
       match ends g with
       | Finishes => []
       | RaisesExn e => [sse (json_dumps (server_error (str e))); DONE]
       end,
       [HandleCharacterCreationOnly video_data])
  end.

Definition create_character (generation_handler : option GenerationHandler)
    (request : CharacterCreateRequest)
    : outcome response * list handler_call :=
  match generation_handler with
  | None =>
      (Raises (HTTPException 500 (Detail "Generation handler not initialized")), [])
  | Some h =>
      let video_data := strip_data_uri (video request) in
      if async_mode request
      then
        match request_timestamps request with
        | inl e => (Returns (character_route_failure request e), [])
        | inr timestamps =>
            match submit_character_creation_task h video_data timestamps with
            | inl e =>
                (Returns (character_route_failure request e),
                 [SubmitCharacterCreationTask video_data])
            | inr (task_id, task_type) =>
                (Returns (JSONResponse 200
                   (JObj [("task_id", JStr task_id);
                          ("task_type", JStr task_type);
                          ("status", JStr "processing");
                          ("message", JStr "Task submitted successfully. Use GET /v1/tasks/{task_id} to check status.")])),
                 [SubmitCharacterCreationTask video_data])
            end
        end
      else
        match lookup_model "sora2-landscape-10s" with
        | inl e => (Returns (character_route_failure request e), [])
        | inr model_config =>
            if stream request
            then
              let (body, calls) := character_generate h request video_data in
              (Returns (StreamingResponse body), calls)
            else
              (Returns (JSONResponse 400
                 (error_object
                    "Character creation requires streaming mode. Please set stream=true"
                    "invalid_request_error" (JStr "stream"))),
               [])
        end
  end.

End WithEnvironment.

End Routes.

(** * More of [database.py] and [routes.py] *)

(** ** [database.py]: the other writers of [tokens] *)

Module TokOps.

Import Tok.

(** *** [Database.update_token_usage]

    [UPDATE tokens SET last_used_at = CURRENT_TIMESTAMP,
     use_count = use_count + 1 WHERE id = $1] *)
Definition set_usage (now : datetime) (r : Token) : Token :=
  mkToken (id r) (token r) (email r) (name r) (st r) (rt r) (client_id r)
    (proxy_url r) (remark r) (expiry_time r) (is_active r)
    (cooled_until r) (created_at r)
    (Some now) (use_count r + 1)
    (plan_type r) (plan_title r) (subscription_end r)
    (sora2_supported r) (sora2_invite_code r) (sora2_redeemed_count r)
    (sora2_total_count r) (sora2_remaining_count r) (sora2_cooldown_until r)
    (image_enabled r) (video_enabled r) (image_concurrency r)
    (video_concurrency r) (is_expired r).

Definition update_token_usage (now : datetime) (tid : Z) (t : table) : table :=
  update_where tid (set_usage now) t.

(** *** [Database.update_token_status]

    [UPDATE tokens SET is_active = $1 WHERE id = $2] *)
Definition set_active (active : bool) (r : Token) : Token :=
  mkToken (id r) (token r) (email r) (name r) (st r) (rt r) (client_id r)
    (proxy_url r) (remark r) (expiry_time r)
    active
    (cooled_until r) (created_at r) (last_used_at r) (use_count r)
    (plan_type r) (plan_title r) (subscription_end r)
    (sora2_supported r) (sora2_invite_code r) (sora2_redeemed_count r)
    (sora2_total_count r) (sora2_remaining_count r) (sora2_cooldown_until r)
    (image_enabled r) (video_enabled r) (image_concurrency r)
    (video_concurrency r) (is_expired r).

Definition update_token_status (tid : Z) (active : bool) (t : table) : table :=
  update_where tid (set_active active) t.

(** *** [Database.clear_token_expired]

    [UPDATE tokens SET is_expired = FALSE WHERE id = $1] *)
Definition set_not_expired (r : Token) : Token :=
  mkToken (id r) (token r) (email r) (name r) (st r) (rt r) (client_id r)
    (proxy_url r) (remark r) (expiry_time r) (is_active r)
    (cooled_until r) (created_at r) (last_used_at r) (use_count r)
    (plan_type r) (plan_title r) (subscription_end r)
    (sora2_supported r) (sora2_invite_code r) (sora2_redeemed_count r)
    (sora2_total_count r) (sora2_remaining_count r) (sora2_cooldown_until r)
    (image_enabled r) (video_enabled r) (image_concurrency r)
    (video_concurrency r)
    false.

Definition clear_token_expired (tid : Z) (t : table) : table :=
  update_where tid set_not_expired t.

(** *** [Database.update_token_cooldown]

    [UPDATE tokens SET cooled_until = $1 WHERE id = $2] *)
Definition set_cooldown (until : datetime) (r : Token) : Token :=
  mkToken (id r) (token r) (email r) (name r) (st r) (rt r) (client_id r)
    (proxy_url r) (remark r) (expiry_time r) (is_active r)
    (Some until)
    (created_at r) (last_used_at r) (use_count r)
    (plan_type r) (plan_title r) (subscription_end r)
    (sora2_supported r) (sora2_invite_code r) (sora2_redeemed_count r)
    (sora2_total_count r) (sora2_remaining_count r) (sora2_cooldown_until r)
    (image_enabled r) (video_enabled r) (image_concurrency r)
    (video_concurrency r) (is_expired r).

Definition update_token_cooldown (tid : Z) (cooled_until : datetime) (t : table) : table :=
  update_where tid (set_cooldown cooled_until) t.

(** The ids of a list of credentials, in order. *)
Definition ids (l : list Token) : list (option Z) := map id l.

End TokOps.

(** ** [database.py]: [create_task] *)

Module TaskOps.

Import Tasks.

(** *** [Database.create_task]

    [INSERT INTO tasks (task_id, token_id, model, prompt, status, progress)
     VALUES (...) RETURNING id].  The row takes [new_id] from the sequence of
    the table; the columns the statement does not name are NULL, but for
    [created_at], which takes its default [created]. *)
Definition create_task (new_id : Z) (created : option datetime) (task : Task)
    (t : table) : table * Z :=
  (t ++ [mkTask (Some new_id) (task_id task) (token_id task) (model task)
           (prompt task) (status task) (progress task)
           None None created None],
   new_id).

End TaskOps.

(** ** Runs of error calls *)

Module StatsRuns.

(** The error calls of a run, as operations on one token. *)
Definition error_calls (tid : Z) (calls : list (date * datetime * bool)) : list Stats.stats_op :=
  map (fun c => Stats.IncrementError (fst (fst c)) (snd (fst c)) tid (snd c)) calls.

Definition counted (calls : list (date * datetime * bool)) : Z :=
  Z.of_nat (List.length (filter (fun c => snd c) calls)).




End StatsRuns.

(** ** The dynamic UPDATE statements

    [update_token], [update_request_log] and [update_request_log_by_task_id]
    build their statement at run time: for each argument that is not [None]
    they append [column = $n] to [updates] and the value to [params], counting
    [param_num] up; the key goes last into [params] and the WHERE clause names
    it as [$param_num].  The builder and the server's reading of the
    placeholders are modelled once, for any table. *)

Module Sql.

Inductive value :=
| VStr (s : string)
| VTime (t : datetime)
| VBool (b : bool)
| VInt (n : Z)
| VFloat (q : Q).

(** The right-hand side of an assignment in a SET clause. *)
Inductive rhs :=
| Placeholder (n : nat)        (* $n *)
| CurrentTimestamp.            (* CURRENT_TIMESTAMP *)

Section Builder.

Variable column : Type.

Record builder := mkBuilder {
  updates : list (column * rhs);
  params : list value;
  param_num : nat
}.

(** [updates = []; params = []; param_num = 1] *)
Definition start : builder := mkBuilder [] [] 1.

(** [if arg is not None: updates.append(f"col = ${param_num}");
     params.append(arg); param_num += 1] *)
Definition given (c : column) (arg : option value) (b : builder) : builder :=
  match arg with
  | None => b
  | Some v =>
      mkBuilder (updates b ++ [(c, Placeholder (param_num b))])
                (params b ++ [v])
                (S (param_num b))
  end.

Definition build (args : list (column * option value)) : builder :=
  fold_left (fun b ca => given (fst ca) (snd ca) b) args start.

(** What a run of the tests appends, counting from [n]. *)
Fixpoint emitted_updates (args : list (column * option value)) (n : nat)
    : list (column * rhs) :=
  match args with
  | [] => []
  | (c, Some _) :: rest => (c, Placeholder n) :: emitted_updates rest (S n)
  | (_, None) :: rest => emitted_updates rest n
  end.

Fixpoint emitted_params (args : list (column * option value)) : list value :=
  match args with
  | [] => []
  | (_, Some v) :: rest => v :: emitted_params rest
  | (_, None) :: rest => emitted_params rest
  end.

Variable row : Type.

(** [set_column c v r]: the row [r] with column [c] set to [v];
    [set_now c now r]: with column [c] set to the time of the statement;
    [matches key r]: the WHERE clause on the key column. *)
Variable set_column : column -> value -> row -> row.
Variable set_now : column -> datetime -> row -> row.
Variable matches : value -> row -> bool.

(** The value the server binds to [$n]: the n-th of the arguments passed
    after the query text, counting from 1. *)
Definition bound (ps : list value) (n : nat) : option value :=
  match n with
  | O => None
  | S i => nth_error ps i
  end.

Definition assign (ps : list value) (now : datetime) (r : row) (u : column * rhs) : row :=
  match snd u with
  | Placeholder n =>
      match bound ps n with
      | Some v => set_column (fst u) v r
      | None => r
      end
  | CurrentTimestamp => set_now (fst u) now r
  end.

(** [UPDATE table SET <updates> WHERE key = $where_num], run with [ps]. *)
Definition execute (us : list (column * rhs)) (where_num : nat) (ps : list value)
    (now : datetime) (t : list row) : list row :=
  match bound ps where_num with
  | Some key =>
      map (fun r => if matches key r then fold_left (assign ps now) us r else r) t
  | None => t
  end.

(** The arguments that were given, each replacing its column, in the order
    of the source. *)
Definition set_given (r : row) (ca : column * option value) : row :=
  match snd ca with
  | Some v => set_column (fst ca) v r
  | None => r
  end.

Definition all_omitted (args : list (column * option value)) : bool :=
  forallb (fun ca => match snd ca with None => true | Some _ => false end) args.

End Builder.

End Sql.

(** ** [database.py]: [update_token] *)

Module TokenUpdate.

Import Tok Sql.

Inductive column :=
| c_token | c_st | c_rt | c_client_id | c_proxy_url | c_remark | c_expiry_time
| c_plan_type | c_plan_title | c_subscription_end
| c_image_enabled | c_video_enabled | c_image_concurrency | c_video_concurrency.

(** The keyword arguments of [update_token]. *)
Record arguments := mkArguments {
  a_token : option string;
  a_st : option string;
  a_rt : option string;
  a_client_id : option string;
  a_proxy_url : option string;
  a_remark : option string;
  a_expiry_time : option datetime;
  a_plan_type : option string;
  a_plan_title : option string;
  a_subscription_end : option datetime;
  a_image_enabled : option bool;
  a_video_enabled : option bool;
  a_image_concurrency : option Z;
  a_video_concurrency : option Z
}.

(** The arguments in the order the source tests them. *)
Definition in_order (a : arguments) : list (column * option value) :=
  [(c_token, option_map VStr (a_token a));
   (c_st, option_map VStr (a_st a));
   (c_rt, option_map VStr (a_rt a));
   (c_client_id, option_map VStr (a_client_id a));
   (c_proxy_url, option_map VStr (a_proxy_url a));
   (c_remark, option_map VStr (a_remark a));
   (c_expiry_time, option_map VTime (a_expiry_time a));
   (c_plan_type, option_map VStr (a_plan_type a));
   (c_plan_title, option_map VStr (a_plan_title a));
   (c_subscription_end, option_map VTime (a_subscription_end a));
   (c_image_enabled, option_map VBool (a_image_enabled a));
   (c_video_enabled, option_map VBool (a_video_enabled a));
   (c_image_concurrency, option_map VInt (a_image_concurrency a));
   (c_video_concurrency, option_map VInt (a_video_concurrency a))].

(** One column of a row replaced, the others copied. *)
Definition with_columns (r : Token)
    (tk : string) (s t c p m : option string) (e : option datetime)
    (pt pl : option string) (se : option datetime)
    (ie ve : bool) (ic vc : Z) : Token :=
  mkToken (id r) tk (email r) (name r) s t c p m e (is_active r)
    (cooled_until r) (created_at r) (last_used_at r) (use_count r)
    pt pl se
    (sora2_supported r) (sora2_invite_code r) (sora2_redeemed_count r)
    (sora2_total_count r) (sora2_remaining_count r) (sora2_cooldown_until r)
    ie ve ic vc (is_expired r).

(** [SET c = v] on a row of [tokens]; a value of another type than the
    column's is not stored (the arguments of [update_token] never give one). *)
Definition set_column (c : column) (v : value) (r : Token) : Token :=
  match c, v with
  | c_token, VStr x =>
      with_columns r x (st r) (rt r) (client_id r) (proxy_url r) (remark r)
        (expiry_time r) (plan_type r) (plan_title r) (subscription_end r)
        (image_enabled r) (video_enabled r) (image_concurrency r) (video_concurrency r)
  | c_st, VStr x =>
      with_columns r (token r) (Some x) (rt r) (client_id r) (proxy_url r) (remark r)
        (expiry_time r) (plan_type r) (plan_title r) (subscription_end r)
        (image_enabled r) (video_enabled r) (image_concurrency r) (video_concurrency r)
  | c_rt, VStr x =>
      with_columns r (token r) (st r) (Some x) (client_id r) (proxy_url r) (remark r)
        (expiry_time r) (plan_type r) (plan_title r) (subscription_end r)
        (image_enabled r) (video_enabled r) (image_concurrency r) (video_concurrency r)
  | c_client_id, VStr x =>
      with_columns r (token r) (st r) (rt r) (Some x) (proxy_url r) (remark r)
        (expiry_time r) (plan_type r) (plan_title r) (subscription_end r)
        (image_enabled r) (video_enabled r) (image_concurrency r) (video_concurrency r)
  | c_proxy_url, VStr x =>
      with_columns r (token r) (st r) (rt r) (client_id r) (Some x) (remark r)
        (expiry_time r) (plan_type r) (plan_title r) (subscription_end r)
        (image_enabled r) (video_enabled r) (image_concurrency r) (video_concurrency r)
  | c_remark, VStr x =>
      with_columns r (token r) (st r) (rt r) (client_id r) (proxy_url r) (Some x)
        (expiry_time r) (plan_type r) (plan_title r) (subscription_end r)
        (image_enabled r) (video_enabled r) (image_concurrency r) (video_concurrency r)
  | c_expiry_time, VTime x =>
      with_columns r (token r) (st r) (rt r) (client_id r) (proxy_url r) (remark r)
        (Some x) (plan_type r) (plan_title r) (subscription_end r)
        (image_enabled r) (video_enabled r) (image_concurrency r) (video_concurrency r)
  | c_plan_type, VStr x =>
      with_columns r (token r) (st r) (rt r) (client_id r) (proxy_url r) (remark r)
        (expiry_time r) (Some x) (plan_title r) (subscription_end r)
        (image_enabled r) (video_enabled r) (image_concurrency r) (video_concurrency r)
  | c_plan_title, VStr x =>
      with_columns r (token r) (st r) (rt r) (client_id r) (proxy_url r) (remark r)
        (expiry_time r) (plan_type r) (Some x) (subscription_end r)
        (image_enabled r) (video_enabled r) (image_concurrency r) (video_concurrency r)
  | c_subscription_end, VTime x =>
      with_columns r (token r) (st r) (rt r) (client_id r) (proxy_url r) (remark r)
        (expiry_time r) (plan_type r) (plan_title r) (Some x)
        (image_enabled r) (video_enabled r) (image_concurrency r) (video_concurrency r)
  | c_image_enabled, VBool x =>
      with_columns r (token r) (st r) (rt r) (client_id r) (proxy_url r) (remark r)
        (expiry_time r) (plan_type r) (plan_title r) (subscription_end r)
        x (video_enabled r) (image_concurrency r) (video_concurrency r)
  | c_video_enabled, VBool x =>
      with_columns r (token r) (st r) (rt r) (client_id r) (proxy_url r) (remark r)
        (expiry_time r) (plan_type r) (plan_title r) (subscription_end r)
        (image_enabled r) x (image_concurrency r) (video_concurrency r)
  | c_image_concurrency, VInt x =>
      with_columns r (token r) (st r) (rt r) (client_id r) (proxy_url r) (remark r)
        (expiry_time r) (plan_type r) (plan_title r) (subscription_end r)
        (image_enabled r) (video_enabled r) x (video_concurrency r)
  | c_video_concurrency, VInt x =>
      with_columns r (token r) (st r) (rt r) (client_id r) (proxy_url r) (remark r)
        (expiry_time r) (plan_type r) (plan_title r) (subscription_end r)
        (image_enabled r) (video_enabled r) (image_concurrency r) x
  | _, _ => r
  end.

(** No statement of [update_token] uses [CURRENT_TIMESTAMP]. *)
Definition set_now (c : column) (now : datetime) (r : Token) : Token := r.

(** [WHERE id = $n] *)
Definition matches (key : value) (r : Token) : bool :=
  match key with
  | VInt tid => has_id tid r
  | _ => false
  end.

(** *** [Database.update_token] *)
Definition update_token (now : datetime) (tid : Z) (a : arguments) (t : table) : table :=
  let b := build (in_order a) in
  match updates b with
  | [] => t
  | _ :: _ =>
      execute set_column set_now matches
        (updates b) (param_num b) (params b ++ [VInt tid]) now t
  end.

(** What the docstring says the call does: each argument given replaces its
    column on the rows of the token. *)
Definition with_arguments (a : arguments) (r : Token) : Token :=
  fold_left (set_given set_column) (in_order a) r.

(** The same, column by column. *)
Definition or_old {A} (new : option A) (old : A) : A :=
  match new with Some x => x | None => old end.
Definition or_old_opt {A} (new : option A) (old : option A) : option A :=
  match new with Some x => Some x | None => old end.
Definition replaced (a : arguments) (r : Token) : Token :=
  with_columns r (or_old (a_token a) (token r)) (or_old_opt (a_st a) (st r))
    (or_old_opt (a_rt a) (rt r)) (or_old_opt (a_client_id a) (client_id r))
    (or_old_opt (a_proxy_url a) (proxy_url r)) (or_old_opt (a_remark a) (remark r))
    (or_old_opt (a_expiry_time a) (expiry_time r))
    (or_old_opt (a_plan_type a) (plan_type r)) (or_old_opt (a_plan_title a) (plan_title r))
    (or_old_opt (a_subscription_end a) (subscription_end r))
    (or_old (a_image_enabled a) (image_enabled r))
    (or_old (a_video_enabled a) (video_enabled r))
    (or_old (a_image_concurrency a) (image_concurrency r))
    (or_old (a_video_concurrency a) (video_concurrency r)).

Definition none_given : arguments :=
  mkArguments None None None None None None None None None None None None None None.

End TokenUpdate.

(** ** [models.py]: RequestLog; [database.py]: the request log *)

Module Logs.

Import Sql.

Record RequestLog := mkRequestLog {
  id : option Z;
  token_id : option Z;
  task_id : option string;      (* link to the task, for progress tracking *)
  operation : string;
  request_body : option string;
  response_body : option string;
  status_code : Z;              (* -1 while in progress *)
  duration : Q;                 (* -1.0 while in progress *)
  created_at : option datetime;
  updated_at : option datetime
}.

Definition table := list RequestLog.

Inductive column :=
| c_response_body | c_status_code | c_duration | c_token_id | c_task_id
| c_updated_at.

Definition set_column (c : column) (v : value) (r : RequestLog) : RequestLog :=
  match c, v with
  | c_response_body, VStr x =>
      mkRequestLog (id r) (token_id r) (task_id r) (operation r) (request_body r)
        (Some x) (status_code r) (duration r) (created_at r) (updated_at r)
  | c_status_code, VInt x =>
      mkRequestLog (id r) (token_id r) (task_id r) (operation r) (request_body r)
        (response_body r) x (duration r) (created_at r) (updated_at r)
  | c_duration, VFloat x =>
      mkRequestLog (id r) (token_id r) (task_id r) (operation r) (request_body r)
        (response_body r) (status_code r) x (created_at r) (updated_at r)
  | c_token_id, VInt x =>
      mkRequestLog (id r) (Some x) (task_id r) (operation r) (request_body r)
        (response_body r) (status_code r) (duration r) (created_at r) (updated_at r)
  | c_task_id, VStr x =>
      mkRequestLog (id r) (token_id r) (Some x) (operation r) (request_body r)
        (response_body r) (status_code r) (duration r) (created_at r) (updated_at r)
  | _, _ => r
  end.

(** [updated_at = CURRENT_TIMESTAMP] *)
Definition set_now (c : column) (now : datetime) (r : RequestLog) : RequestLog :=
  match c with
  | c_updated_at =>
      mkRequestLog (id r) (token_id r) (task_id r) (operation r) (request_body r)
        (response_body r) (status_code r) (duration r) (created_at r) (Some now)
  | _ => r
  end.

(** [WHERE id = $n] and [WHERE task_id = $n] *)
Definition has_id (key : value) (r : RequestLog) : bool :=
  match key with
  | VInt i => opt_eqb Z.eqb (id r) (Some i)
  | _ => false
  end.

Definition has_task_id (key : value) (r : RequestLog) : bool :=
  match key with
  | VStr s => opt_eqb String.eqb (task_id r) (Some s)
  | _ => false
  end.

(** *** [Database.update_request_log] *)

Record arguments := mkArguments {
  a_response_body : option string;
  a_status_code : option Z;
  a_duration : option Q;
  a_token_id : option Z;
  a_task_id : option string
}.

Definition in_order (a : arguments) : list (column * option value) :=
  [(c_response_body, option_map VStr (a_response_body a));
   (c_status_code, option_map VInt (a_status_code a));
   (c_duration, option_map VFloat (a_duration a));
   (c_token_id, option_map VInt (a_token_id a));
   (c_task_id, option_map VStr (a_task_id a))].

Definition update_request_log (now : datetime) (log_id : Z) (a : arguments)
    (t : table) : table :=
  let b := build (in_order a) in
  match updates b with
  | [] => t
  | _ :: _ =>
      execute set_column set_now has_id
        (updates b ++ [(c_updated_at, CurrentTimestamp)])
        (param_num b) (params b ++ [VInt log_id]) now t
  end.

(** *** [Database.update_request_log_by_task_id] *)

Definition in_order_by_task (response_body : option string) (status_code : option Z)
    (duration : option Q) : list (column * option value) :=
  [(c_response_body, option_map VStr response_body);
   (c_status_code, option_map VInt status_code);
   (c_duration, option_map VFloat duration)].

Definition update_request_log_by_task_id (now : datetime) (task : string)
    (response_body : option string) (status_code : option Z) (duration : option Q)
    (t : table) : table :=
  let b := build (in_order_by_task response_body status_code duration) in
  match updates b with
  | [] => t
  | _ :: _ =>
      execute set_column set_now has_task_id
        (updates b ++ [(c_updated_at, CurrentTimestamp)])
        (param_num b) (params b ++ [VStr task]) now t
  end.

(** The row after a call that gave at least one argument. *)
Definition or_old {A} (new : option A) (old : A) : A :=
  match new with Some x => x | None => old end.

Definition or_old_opt {A} (new old : option A) : option A :=
  match new with Some x => Some x | None => old end.

Definition completed (now : datetime) (a : arguments) (r : RequestLog) : RequestLog :=
  mkRequestLog (id r)
    (or_old_opt (a_token_id a) (token_id r))
    (or_old_opt (a_task_id a) (task_id r))
    (operation r) (request_body r)
    (or_old_opt (a_response_body a) (response_body r))
    (or_old (a_status_code a) (status_code r))
    (or_old (a_duration a) (duration r))
    (created_at r) (Some now).

Definition anything_given (a : arguments) : bool :=
  negb (all_omitted (in_order a)).

End Logs.

(** ** [database.py]: admin sessions *)

Module AdminSessions.

(** A row of [admin_sessions]: the columns the statements of the source
    name, and [created_at]. *)
Record session := mkSession {
  token : string;
  expires_at : option datetime;
  created_at : option datetime;
  last_used_at : option datetime
}.

Definition table := list session.

Definition has_token (tok : string) (r : session) : bool := String.eqb (token r) tok.

(** [expires_at IS NULL OR expires_at > CURRENT_TIMESTAMP] *)
Definition live (now : datetime) (r : session) : bool :=
  match expires_at r with
  | None => true
  | Some e => now <? e
  end.

(** [expires_at IS NOT NULL AND expires_at < CURRENT_TIMESTAMP] *)
Definition lapsed (now : datetime) (r : session) : bool :=
  match expires_at r with
  | None => false
  | Some e => e <? now
  end.

(** *** [Database.create_admin_session]

    [INSERT INTO admin_sessions (token, expires_at) VALUES ($1, $2)
     ON CONFLICT (token) DO UPDATE
     SET last_used_at = CURRENT_TIMESTAMP, expires_at = $2].
    A new row takes [created] and [last_used] from the column defaults. *)
Definition create_admin_session (now : datetime) (created last_used : option datetime)
    (tok : string) (expires : option datetime) (t : table) : table :=
  if existsb (has_token tok) t
  then map (fun r => if has_token tok r
                     then mkSession (token r) expires (created_at r) (Some now)
                     else r) t
  else t ++ [mkSession tok expires created last_used].

(** *** [Database.get_admin_session] *)
Definition get_admin_session (now : datetime) (tok : string) (t : table)
    : option session :=
  find (fun r => has_token tok r && live now r) t.

(** *** [Database.update_admin_session_last_used] *)
Definition update_admin_session_last_used (now : datetime) (tok : string)
    (t : table) : table :=
  map (fun r => if has_token tok r
                then mkSession (token r) (expires_at r) (created_at r) (Some now)
                else r) t.

(** *** [Database.delete_admin_session] *)
Definition delete_admin_session (tok : string) (t : table) : table :=
  filter (fun r => negb (has_token tok r)) t.

(** *** [Database.cleanup_expired_admin_sessions] *)
Definition cleanup_expired_admin_sessions (now : datetime) (t : table) : table :=
  filter (fun r => negb (lapsed now r)) t.

End AdminSessions.

(** ** [database.py]: the configuration rows

    Each configuration table is read and written at [id = 1] only: the table
    is that row, or no row. *)

Module Config.

(** *** [cache_config] *)





(** *** [watermark_free_config] *)

Record WatermarkFreeConfig := mkWatermarkFreeConfig {
  watermark_free_enabled : bool;
  parse_method : string;
  custom_parse_url : option string;
  custom_parse_token : option string;
  watermark_updated_at : option datetime
}.

(** [Database.get_watermark_free_config] *)
Definition get_watermark_free_config (row : option WatermarkFreeConfig)
    : WatermarkFreeConfig :=
  match row with
  | Some r => r
  | None => mkWatermarkFreeConfig false "third_party" None None None
  end.

(** [parse_method or "third_party"] *)
Definition or_third_party (method : option string) : string :=
  match method with
  | Some (String c rest) => String c rest
  | _ => "third_party"
  end.

(** [Database.update_watermark_free_config] *)
Definition update_watermark_free_config (now : datetime) (enabled : bool)
    (method url tok : option string) (row : option WatermarkFreeConfig)
    : option WatermarkFreeConfig :=
  match row with
  | None => None
  | Some r =>
      match method, url, tok with
      | None, None, None =>
          Some (mkWatermarkFreeConfig enabled (parse_method r) (custom_parse_url r)
                  (custom_parse_token r) (Some now))
      | _, _, _ =>
          Some (mkWatermarkFreeConfig enabled (or_third_party method) url tok (Some now))
      end
  end.

End Config.

(** ** [routes.py]: [generate_image] and [create_chat_completion] *)

Module Endpoints.

Import Json Routes.

(** The keyword arguments of [handle_generation]. *)
Record generation_args := mkGenerationArgs {
  g_model : string;
  g_prompt : string;
  g_image : option string;
  g_video : option string;
  g_remix_target_id : option string;
  g_stream : bool
}.

(** The two methods of the generation handler these routes call
    ([services/generation_handler.py] is not among the sources). *)
Record GenerationApi := mkGenerationApi {
  handle_generation : generation_args -> generation;
  submit_generation_task :
    string -> string -> option string -> option string -> option string ->
    exn + (string * string)
}.

Inductive api_call :=
| HandleGeneration (a : generation_args)
| SubmitGenerationTask (model prompt : string) (image video remix : option string).

Record ImageGenerateRequest := mkImageGenerateRequest {
  i_prompt : string;
  i_model : string;
  i_stream : bool;
  i_async_mode : bool
}.

(** [messages] are kept by their [content]; the routes do not read [role]. *)
Record ChatCompletionRequest := mkChatCompletionRequest {
  c_model : string;
  c_messages : list message_content;
  c_image : option string;
  c_video : option string;
  c_remix_target_id : option string;
  c_stream : bool
}.

(** [result = None; async for chunk in ...: result = chunk] *)
Definition last_chunk (chunks : list string) : option string :=
  fold_left (fun _ chunk => Some chunk) chunks None.

(** The loop over a generator outside a streaming body: the exception of the
    generator, or the last chunk. *)
Definition run_to_end (g : generation) : exn + option string :=
  match ends g with
  | RaisesExn e => inl e
  | Finishes => inr (last_chunk (chunks g))
  end.

Definition submitted (task_id task_type : string) : json :=
  JObj [("task_id", JStr task_id);
        ("task_type", JStr task_type);
        ("status", JStr "processing");
        ("message",
         JStr "Task submitted successfully. Use GET /v1/tasks/{task_id} to check status.")].

Section WithEnvironment.

(** [json.loads] and [json.dumps]; [MODEL_CONFIG] by model id with its
    ["type"]; [str(e)] of an [HTTPException] (Starlette's) and of a
    [JSONDecodeError] for a text. *)
Variable json_loads : string -> option json.
Variable json_dumps : json -> string.
Variable MODEL_CONFIG : list (string * string).
Variable http_exception_text : Z -> string -> string.
Variable decode_error_text : string -> string.

Definition model_type (model : string) : option string :=
  option_map snd (find (fun kv => String.eqb (fst kv) model) MODEL_CONFIG).

(** [if result: return JSONResponse(content=json.loads(result)) else: 500] *)
Definition respond (failure : string) (result : option string) : exn + response :=
  match result with
  | Some (String c rest) =>
      match json_loads (String c rest) with
      | Some content => inr (JSONResponse 200 content)
      | None => inl (Exception (decode_error_text (String c rest)))
      end
  | _ => inr (JSONResponse 500 (server_error failure))
  end.

(** The non-streaming branch, under the route's [except Exception]. *)
Definition answer_once (failure : string) (g : generation) : response :=
  match run_to_end g with
  | inl e => JSONResponse 500 (server_error (str e))
  | inr result =>
      match respond failure result with
      | inl e => JSONResponse 500 (server_error (str e))
      | inr r => r
      end
  end.

(** *** [generate_image] *)
Definition generate_image (generation_handler : option GenerationApi)
    (request : ImageGenerateRequest) : outcome response * list api_call :=
  match generation_handler with
  | None =>
      (Raises (HTTPException 500 (Detail "Generation handler not initialized")), [])
  | Some api =>
      match model_type (i_model request) with
      | None =>
          (Raises (HTTPException 400 (Detail ("Invalid model: " ++ i_model request))), [])
      | Some type =>
          if negb (String.eqb type "image")
          then (Raises (HTTPException 400
                          (Detail ("Model " ++ i_model request ++ " is not an image model"))),
                [])
          else if i_async_mode request
          then
            (match submit_generation_task api (i_model request) (i_prompt request)
                     None None None with
             | inl e => Returns (JSONResponse 500 (server_error (str e)))
             | inr (task_id, task_type) =>
                 Returns (JSONResponse 200 (submitted task_id task_type))
             end,
             [SubmitGenerationTask (i_model request) (i_prompt request) None None None])
          else
            let args :=
              mkGenerationArgs (i_model request) (i_prompt request) None None None
                (i_stream request) in
            if i_stream request
            then (Returns (StreamingResponse
                             (image_generate json_dumps (handle_generation api args))),
                  [HandleGeneration args])
            else (Returns (answer_once "Generation failed" (handle_generation api args)),
                  [HandleGeneration args])
      end
  end.

(** *** [create_chat_completion]

    Every exception, an [HTTPException] of the route itself included, is
    caught by the one [except Exception] of the route. *)
Definition rejected (status_code : Z) (detail : string) : response * list api_call :=
  (JSONResponse 500 (server_error (http_exception_text status_code detail)), []).

Definition create_chat_completion (generation_handler : option GenerationApi)
    (request : ChatCompletionRequest) : response * list api_call :=
  match generation_handler with
  | None => rejected 500 "Generation handler not initialized"
  | Some api =>
      match rev (c_messages request) with
      | [] => rejected 400 "Messages cannot be empty"
      | content :: _ =>
          let inputs :=
            read_content (c_image request) (c_video request)
              (c_remix_target_id request) content in
          match model_type (c_model request) with
          | None => rejected 400 ("Invalid model: " ++ c_model request)
          | Some type =>
              let is_video_model := String.eqb type "video" in
              let args stream :=
                mkGenerationArgs (c_model request) (chat_prompt inputs)
                  (image_data inputs) (video_data inputs) (remix_target_id inputs)
                  stream in
              if is_video_model
                 && (str_truthy (video_data inputs) || str_truthy (remix_target_id inputs))
                 && negb (c_stream request)
              then (answer_once "Availability check failed"
                      (handle_generation api (args false)),
                    [HandleGeneration (args false)])
              else if c_stream request
              then (StreamingResponse
                      (chat_generate json_loads json_dumps
                         (handle_generation api (args true))),
                    [HandleGeneration (args true)])
              else (answer_once "Availability check failed"
                      (handle_generation api (args false)),
                    [HandleGeneration (args false)])
          end
      end
  end.

End WithEnvironment.

End Endpoints.

(** * Sample data *)

(** A stats row last written on day 100, and runs on it. *)
Definition stats_day_100 : Stats.table :=
  [Stats.mkTokenStats (Some 1) 7 2 3 4 None 1 1 1 (Some 100) 2].

(** Credentials to run the operations on. *)
Definition credential (tid : Z) (active : bool)
    (cooled expiry last_used : option datetime) : Tok.Token :=
  Tok.mkToken (Some tid) "at" "user@example.com" None None None None None None
    expiry active cooled (Some 0) last_used 0
    None None None None None 0 0 0 None true true (-1) (-1) false.

Definition pool_of_five : Tok.table :=
  [credential 1 true None None (Some 40);
   credential 2 true (Some 90) None (Some 10);
   credential 3 false None None None;
   credential 4 true (Some 200) None (Some 5);
   credential 5 true None (Some 300) None].

(** A task in progress, and two runs of [update_task] on it. *)
Definition task_in_progress : Tasks.table :=
  [Tasks.mkTask (Some 1) "task_1" 1 "sora2-landscape-10s" "a red fox"
     "processing" 0 None None (Some 0) None].

Definition falling_progress : list Tasks.call :=
  [Tasks.mkCall 10 "task_1" "processing" 50 None None;
   Tasks.mkCall 20 "task_1" "processing" 10 None None].

Definition finished_twice : list Tasks.call :=
  [Tasks.mkCall 10 "task_1" "completed" 100 (Some "[]") None;
   Tasks.mkCall 20 "task_1" "processing" 30 None None;
   Tasks.mkCall 30 "task_1" "failed" 30 None (Some "timeout")].

(** The scenario of the route's docstring: a share link inside the prompt. *)
Definition prompt_with_share_link : string :=
  "remix https://sora.chatgpt.com/p/s_68e3a06dcd888191b150971da152c1f5 in the rain".

(** ** A concrete environment for the closed examples

    [json.loads] and [json.dumps] are arguments of the routes.  The examples
    below run them with a printer for compact JSON (no escapes; a float is
    printed as numerator/denominator) and with a reader that knows the two
    documents of the examples. *)

Module Sample.

Import Json Routes.

Definition quote : string := String "034" EmptyString.

Definition quoted (s : string) : string := (quote ++ s ++ quote)%string.

Fixpoint dumps (v : json) : string :=
  match v with
  | JNull => "null"
  | JBool true => "true"
  | JBool false => "false"
  | JInt n => NilZero.string_of_int (Z.to_int n)
  | JFloat q =>
      (NilZero.string_of_int (Z.to_int (Qnum q)) ++ "/" ++
       NilZero.string_of_int (Z.to_int (Z.pos (Qden q))))%string
  | JStr s => quoted s
  | JArr items =>
      ("[" ++
       (fix go (l : list json) : string :=
          match l with
          | [] => EmptyString
          | x :: [] => dumps x
          | x :: rest => dumps x ++ ", " ++ go rest
          end) items
       ++ "]")%string
  | JObj fields =>
      ("{" ++
       (fix go (l : list (string * json)) : string :=
          match l with
          | [] => EmptyString
          | (k, x) :: [] => quoted k ++ ": " ++ dumps x
          | (k, x) :: rest => quoted k ++ ": " ++ dumps x ++ ", " ++ go rest
          end) fields
       ++ "}")%string
  end.

(** The identity object a character-creation task stores. *)
Definition character_info : json :=
  JObj [("character_id", JStr "ch_123"); ("username", JStr "fox.red")].

(** The structured error of a region rejection. *)
Definition unsupported_country : json :=
  JObj [("error",
         JObj [("message", JStr "Sora is not available in your country");
               ("type", JStr "invalid_request_error");
               ("param", JNull);
               ("code", JStr "unsupported_country_code")])].

Definition url_list : json :=
  JArr [JStr "https://cdn.example.com/a.mp4"].

Definition loads (s : string) : option json :=
  if String.eqb s (dumps character_info) then Some character_info
  else if String.eqb s (dumps unsupported_country) then Some unsupported_country
  else if String.eqb s (dumps url_list) then Some url_list
  else None.

Definition isoformat (t : datetime) : string :=
  NilZero.string_of_int (Z.to_int t).

Definition MODEL_CONFIG : list (string * string) :=
  [("gpt-image", "image"); ("sora2-landscape-10s", "video")].

Definition handler : GenerationHandler :=
  mkGenerationHandler
    (fun _ _ => inr ("task_1", "character"))
    (fun _ _ => mkGeneration [sse "progress"] Finishes).

(** A completed character-creation task and a completed video task. *)
Definition tasks : Tasks.table :=
  [Tasks.mkTask (Some 1) "char_1" 1 "character-creation" "character"
     "completed" 100 (Some (dumps character_info)) None (Some 10) (Some 20);
   Tasks.mkTask (Some 2) "video_1" 1 "sora2-landscape-10s" "a red fox"
     "completed" 100 (Some (dumps url_list)) None (Some 10) (Some 30)].

End Sample.

(** A generation handler for the closed examples of [generate_image]: it
    yields a progress chunk and then an empty JSON object. *)
Module SampleApi.

Import Json Routes Endpoints.

Definition loads (s : string) : option json :=
  if String.eqb s "{}" then Some (JObj []) else None.

Definition api : GenerationApi :=
  mkGenerationApi
    (fun _ => mkGeneration [sse "progress"; "{}"] Finishes)
    (fun _ _ _ _ _ => inr ("task_1", "image")).

Definition decode_error_text (s : string) : string :=
  "Expecting value: line 1 column 1 (char 0)".

Definition http_exception_text (status_code : Z) (detail : string) : string :=
  (Sample.isoformat status_code ++ ": " ++ detail)%string.

End SampleApi.

(** * Properties *)

(** ** Token statistics *)

Section StatsFacts.

Import Stats.

Lemma fetchrow_update_where_same (tid : Z) set (t : table) :
  keeps_token_id set ->
  fetchrow tid (update_where tid set t) = option_map set (fetchrow tid t).
Proof.
  intros Hk. unfold fetchrow, update_where.
  induction t as [|r t IH]; simpl; [reflexivity|].
  destruct (token_id r =? tid) eqn:E; simpl.
  - rewrite Hk, E. reflexivity.
  - rewrite E. exact IH.
Qed.

Lemma fetchrow_update_where_other (tid tid' : Z) set (t : table) :
  keeps_token_id set -> tid' <> tid ->
  fetchrow tid' (update_where tid set t) = fetchrow tid' t.
Proof.
  intros Hk Hne. unfold fetchrow, update_where.
  induction t as [|r t IH]; simpl; [reflexivity|].
  destruct (token_id r =? tid) eqn:E; simpl.
  - rewrite Hk. apply Z.eqb_eq in E.
    assert ((token_id r =? tid') = false) as -> by (apply Z.eqb_neq; congruence).
    exact IH.
  - destruct (token_id r =? tid'); [reflexivity | exact IH].
Qed.

Lemma date_changed_spec (today : date) (r : TokenStats) :
  date_changed today (Some r) = false <-> today_date r = Some today.
Proof.
  unfold date_changed, opt_eqb. destruct (today_date r) as [d|]; simpl.
  - rewrite negb_false_iff, Z.eqb_eq. split; congruence.
  - split; discriminate.
Qed.

Lemma run_op_update_where (o : stats_op) (t : table) :
  run_op o t = update_where (target_of o) (clause_of o t) t.
Proof.
  destruct o as [today tid|today tid|today now tid ic|tid]; simpl;
    unfold increment_image_count, increment_video_count, increment_error_count,
           reset_error_count;
    repeat match goal with
           | |- context [if ?b then _ else _] => destruct b
           end; reflexivity.
Qed.

Lemma clause_keeps_token_id (o : stats_op) (t : table) :
  keeps_token_id (clause_of o t).
Proof.
  destruct o as [today tid|today tid|today now tid ic|tid]; simpl;
    repeat match goal with
           | |- context [if ?b then _ else _] => destruct b
           end; intros r; reflexivity.
Qed.

Lemma totals_le_refl r : totals_le r r.
Proof. unfold totals_le; lia. Qed.

Lemma totals_le_trans r1 r2 r3 :
  totals_le r1 r2 -> totals_le r2 r3 -> totals_le r1 r3.
Proof. unfold totals_le; lia. Qed.

Lemma clause_totals_le (o : stats_op) (t : table) (r : TokenStats) :
  totals_le r (clause_of o t r).
Proof.
  destruct o as [today tid|today tid|today now tid ic|tid]; simpl;
    repeat match goal with
           | |- context [if ?b then _ else _] => destruct b
           end; unfold totals_le; simpl; lia.
Qed.

Lemma run_op_totals (o : stats_op) (t : table) (tid : Z) (r : TokenStats) :
  get_token_stats tid t = Some r ->
  exists r', get_token_stats tid (run_op o t) = Some r' /\ totals_le r r'.
Proof.
  unfold get_token_stats. intros Hr. rewrite run_op_update_where.
  destruct (Z.eq_dec tid (target_of o)) as [->|Hne].
  - rewrite fetchrow_update_where_same by apply clause_keeps_token_id.
    rewrite Hr. simpl. eexists; split; [reflexivity | apply clause_totals_le].
  - rewrite fetchrow_update_where_other by (auto using clause_keeps_token_id).
    exists r. split; [assumption | apply totals_le_refl].
Qed.

Lemma run_ops_totals (ops : list stats_op) (t : table) (tid : Z) (r : TokenStats) :
  get_token_stats tid t = Some r ->
  exists r', get_token_stats tid (run_ops ops t) = Some r' /\ totals_le r r'.
Proof.
  revert t r. induction ops as [|o ops IH]; intros t r Hr; simpl.
  - exists r. split; [assumption | apply totals_le_refl].
  - destruct (run_op_totals o t tid Hr) as (r1 & H1 & Hle1).
    destruct (IH _ _ H1) as (r2 & H2 & Hle2).
    exists r2. split; [exact H2 | eapply totals_le_trans; eassumption].
Qed.

Lemma get_stats_after_op (o : stats_op) (t : table) (r : TokenStats) :
  get_token_stats (target_of o) t = Some r ->
  get_token_stats (target_of o) (run_op o t) = Some (clause_of o t r).
Proof.
  unfold get_token_stats. intros Hr. rewrite run_op_update_where.
  rewrite fetchrow_update_where_same by apply clause_keeps_token_id.
  rewrite Hr. reflexivity.
Qed.

Lemma get_stats_other_token (o : stats_op) (t : table) (tid : Z) :
  tid <> target_of o ->
  get_token_stats tid (run_op o t) = get_token_stats tid t.
Proof.
  unfold get_token_stats. intros Hne. rewrite run_op_update_where.
  apply fetchrow_update_where_other; [apply clause_keeps_token_id | exact Hne].
Qed.

(** C6. [increment_error_count]: the stats read for the token afterwards have
    [error_count] one higher and [last_error_at] set to the time of the call;
    [consecutive_error_count] is one higher exactly when
    [increment_consecutive] is true and is unchanged when it is false.  The
    image and video totals, and the stats of every other token, stay as they
    were. *)
Theorem increment_error_count_counts :
  forall (today : date) (now : datetime) (tid : Z) (increment_consecutive : bool)
         (t : table) (r : TokenStats),
    get_token_stats tid t = Some r ->
    exists r',
      get_token_stats tid (increment_error_count today now tid increment_consecutive t)
        = Some r' /\
      error_count r' = error_count r + 1 /\
      last_error_at r' = Some now /\
      (consecutive_error_count r' = consecutive_error_count r + 1
         <-> increment_consecutive = true) /\
      (increment_consecutive = false ->
         consecutive_error_count r' = consecutive_error_count r) /\
      image_count r' = image_count r /\
      video_count r' = video_count r /\
      (forall tid', tid' <> tid ->
         get_token_stats tid'
           (increment_error_count today now tid increment_consecutive t)
         = get_token_stats tid' t).
Proof.
  intros today now tid ic t r Hr.
  pose proof (get_stats_after_op (IncrementError today now tid ic) t Hr) as Hget.
  simpl in Hget. eexists. split; [exact Hget|].
  assert (Hother : forall tid', tid' <> tid ->
            get_token_stats tid' (increment_error_count today now tid ic t)
            = get_token_stats tid' t).
  { intros tid' Hne.
    exact (get_stats_other_token (IncrementError today now tid ic) t Hne). }
  destruct (date_changed today (fetchrow tid t)), ic; simpl;
    repeat split; try reflexivity; try lia; try discriminate;
    try congruence; try exact Hother.
Qed.

(** C8. The historical totals [image_count], [video_count] and [error_count]
    of a token never decrease over a run of stats operations.  Each increment
    raises its own total by exactly 1, on the same day and on a day rollover
    alike: the row read afterwards is written out column by column, and on a
    rollover only the same-day counter of the operation restarts at 1.
    [reset_error_count] sets [consecutive_error_count] to 0 and leaves every
    other column of the row, the three totals among them, as it was. *)
Theorem historical_totals_never_decrease :
  forall (t : table) (tid : Z) (r : TokenStats),
    get_token_stats tid t = Some r ->
    (forall ops, exists r',
        get_token_stats tid (run_ops ops t) = Some r' /\ totals_le r r') /\
    (forall today,
        (today_date r = Some today ->
         get_token_stats tid (increment_image_count today tid t)
         = Some (mkTokenStats (id r) (token_id r)
                   (image_count r + 1) (video_count r) (error_count r)
                   (last_error_at r)
                   (today_image_count r + 1) (today_video_count r)
                   (today_error_count r)
                   (Some today) (consecutive_error_count r))) /\
        (today_date r <> Some today ->
         get_token_stats tid (increment_image_count today tid t)
         = Some (mkTokenStats (id r) (token_id r)
                   (image_count r + 1) (video_count r) (error_count r)
                   (last_error_at r)
                   1 (today_video_count r) (today_error_count r)
                   (Some today) (consecutive_error_count r)))) /\
    (forall today,
        (today_date r = Some today ->
         get_token_stats tid (increment_video_count today tid t)
         = Some (mkTokenStats (id r) (token_id r)
                   (image_count r) (video_count r + 1) (error_count r)
                   (last_error_at r)
                   (today_image_count r) (today_video_count r + 1)
                   (today_error_count r)
                   (Some today) (consecutive_error_count r))) /\
        (today_date r <> Some today ->
         get_token_stats tid (increment_video_count today tid t)
         = Some (mkTokenStats (id r) (token_id r)
                   (image_count r) (video_count r + 1) (error_count r)
                   (last_error_at r)
                   (today_image_count r) 1 (today_error_count r)
                   (Some today) (consecutive_error_count r)))) /\
    (forall today now increment_consecutive,
        (today_date r = Some today ->
         get_token_stats tid
           (increment_error_count today now tid increment_consecutive t)
         = Some (mkTokenStats (id r) (token_id r)
                   (image_count r) (video_count r) (error_count r + 1)
                   (Some now)
                   (today_image_count r) (today_video_count r)
                   (today_error_count r + 1)
                   (Some today)
                   (if increment_consecutive
                    then consecutive_error_count r + 1
                    else consecutive_error_count r))) /\
        (today_date r <> Some today ->
         get_token_stats tid
           (increment_error_count today now tid increment_consecutive t)
         = Some (mkTokenStats (id r) (token_id r)
                   (image_count r) (video_count r) (error_count r + 1)
                   (Some now)
                   (today_image_count r) (today_video_count r) 1
                   (Some today)
                   (if increment_consecutive
                    then consecutive_error_count r + 1
                    else consecutive_error_count r)))) /\
    get_token_stats tid (reset_error_count tid t)
    = Some (mkTokenStats (id r) (token_id r)
              (image_count r) (video_count r) (error_count r)
              (last_error_at r)
              (today_image_count r) (today_video_count r) (today_error_count r)
              (today_date r) 0).
Proof.
  intros t tid r Hr.
  assert (Hday : forall today,
            (today_date r = Some today ->
             date_changed today (fetchrow tid t) = false) /\
            (today_date r <> Some today ->
             date_changed today (fetchrow tid t) = true)).
  { intros today. unfold get_token_stats in Hr. rewrite Hr. split; intros H.
    - apply date_changed_spec; exact H.
    - destruct (date_changed today (Some r)) eqn:E; [reflexivity|].
      apply date_changed_spec in E. contradiction. }
  split; [intros ops; apply run_ops_totals; exact Hr|].
  split.
  { intros today. destruct (Hday today) as [Hsame Hroll].
    pose proof (get_stats_after_op (IncrementImage today tid) t Hr) as Hget.
    simpl in Hget.
    split; intros H; [apply Hsame in H | apply Hroll in H];
      rewrite H in Hget; exact Hget. }
  split.
  { intros today. destruct (Hday today) as [Hsame Hroll].
    pose proof (get_stats_after_op (IncrementVideo today tid) t Hr) as Hget.
    simpl in Hget.
    split; intros H; [apply Hsame in H | apply Hroll in H];
      rewrite H in Hget; exact Hget. }
  split.
  { intros today now ic. destruct (Hday today) as [Hsame Hroll].
    pose proof (get_stats_after_op (IncrementError today now tid ic) t Hr) as Hget.
    simpl in Hget.
    split; intros H; [apply Hsame in H | apply Hroll in H];
      rewrite H in Hget; destruct ic; exact Hget. }
  exact (get_stats_after_op (ResetError tid) t Hr).
Qed.

End StatsFacts.

Example increment_error_on_rollover :
  Stats.increment_error_count 101 5000 7 false stats_day_100
  = [Stats.mkTokenStats (Some 1) 7 2 3 5 (Some 5000) 1 1 1 (Some 101) 2].
Proof. reflexivity. Qed.

Example increment_image_same_day :
  Stats.increment_image_count 100 7 stats_day_100
  = [Stats.mkTokenStats (Some 1) 7 3 3 4 None 2 1 1 (Some 100) 2].
Proof. reflexivity. Qed.

Lemma increment_error_count_counts_witness :
  Stats.get_token_stats 7 stats_day_100
    = Some (Stats.mkTokenStats (Some 1) 7 2 3 4 None 1 1 1 (Some 100) 2) /\
  exists r',
    Stats.get_token_stats 7 (Stats.increment_error_count 101 5000 7 false stats_day_100)
      = Some r' /\
    Stats.error_count r' = 4 + 1 /\
    Stats.last_error_at r' = Some 5000 /\
    Stats.consecutive_error_count r' = 2.
Proof.
  split; [reflexivity|].
  destruct (@increment_error_count_counts 101 5000 7 false stats_day_100
              (Stats.mkTokenStats (Some 1) 7 2 3 4 None 1 1 1 (Some 100) 2)
              eq_refl)
    as (r' & Hget & Herr & Hlast & _ & Hcons & _).
  exists r'. repeat split; try assumption. apply Hcons. reflexivity.
Defined.

Lemma historical_totals_never_decrease_witness :
  Stats.get_token_stats 7 stats_day_100
    = Some (Stats.mkTokenStats (Some 1) 7 2 3 4 None 1 1 1 (Some 100) 2) /\
  exists r',
    Stats.get_token_stats 7
      (Stats.run_ops [Stats.IncrementImage 101 7; Stats.ResetError 7;
                      Stats.IncrementError 102 9 7 true; Stats.IncrementVideo 102 8]
         stats_day_100) = Some r' /\
    2 <= Stats.image_count r' /\ 3 <= Stats.video_count r' /\ 4 <= Stats.error_count r'.
Proof.
  split; [reflexivity|].
  exact (proj1 (@historical_totals_never_decrease stats_day_100 7
                  (Stats.mkTokenStats (Some 1) 7 2 3 4 None 1 1 1 (Some 100) 2)
                  eq_refl) _).
Defined.

Example reset_error_count_keeps_the_row :
  Stats.reset_error_count 7
    [Stats.mkTokenStats (Some 1) 7 20 30 40 (Some 9) 5 6 7 (Some 100) 3]
  = [Stats.mkTokenStats (Some 1) 7 20 30 40 (Some 9) 5 6 7 (Some 100) 0].
Proof. reflexivity. Qed.

Example increment_video_on_rollover :
  Stats.increment_video_count 101 7
    [Stats.mkTokenStats (Some 1) 7 20 30 40 (Some 9) 5 6 7 (Some 100) 3]
  = [Stats.mkTokenStats (Some 1) 7 20 31 40 (Some 9) 5 1 7 (Some 101) 3].
Proof. reflexivity. Qed.

(** ** Credentials *)

Section TokenFacts.

Import Tok.

Lemma last_used_leb_le (a b : Token) :
  last_used_leb a b = true <-> last_used_le a b.
Proof.
  unfold last_used_leb, last_used_le.
  destruct (last_used_at a), (last_used_at b); try rewrite Z.leb_le;
    split; auto; discriminate.
Qed.

Lemma last_used_le_total (a b : Token) :
  last_used_leb a b = false -> last_used_le b a.
Proof.
  unfold last_used_leb, last_used_le.
  destruct (last_used_at a), (last_used_at b); try rewrite Z.leb_gt;
    intros H; try discriminate; auto; lia.
Qed.

Lemma last_used_le_trans (a b c : Token) :
  last_used_le a b -> last_used_le b c -> last_used_le a c.
Proof.
  unfold last_used_le.
  destruct (last_used_at a), (last_used_at b), (last_used_at c);
    intros; try contradiction; auto; lia.
Qed.

Lemma insert_by_last_used_perm (r : Token) (l : list Token) :
  Permutation (insert_by_last_used r l) (r :: l).
Proof.
  induction l as [|h tl IH]; simpl; [apply Permutation_refl|].
  destruct (last_used_leb r h); [apply Permutation_refl|].
  eapply perm_trans; [apply perm_skip, IH | apply perm_swap].
Qed.

Lemma order_by_last_used_perm (l : list Token) :
  Permutation (order_by_last_used l) l.
Proof.
  induction l as [|h tl IH]; simpl; [apply perm_nil|].
  eapply perm_trans; [apply insert_by_last_used_perm | apply perm_skip, IH].
Qed.

Lemma insert_by_last_used_sorted (r : Token) (l : list Token) :
  StronglySorted last_used_le l ->
  StronglySorted last_used_le (insert_by_last_used r l).
Proof.
  induction 1 as [|h tl Hs IH Hall]; simpl.
  - constructor; constructor.
  - destruct (last_used_leb r h) eqn:E.
    + apply last_used_leb_le in E. constructor.
      * constructor; assumption.
      * constructor; [exact E|].
        eapply Forall_impl; [|exact Hall].
        intros x Hx. eapply last_used_le_trans; eassumption.
    + apply last_used_le_total in E. constructor; [exact IH|].
      eapply Permutation_Forall.
      * apply Permutation_sym, insert_by_last_used_perm.
      * constructor; assumption.
Qed.

Lemma order_by_last_used_sorted (l : list Token) :
  StronglySorted last_used_le (order_by_last_used l).
Proof.
  induction l as [|h tl IH]; simpl; [constructor|].
  apply insert_by_last_used_sorted, IH.
Qed.

Lemma not_cooling_spec (now : datetime) (r : Token) :
  not_cooling now r = true <->
  (cooled_until r = None \/ exists c, cooled_until r = Some c /\ c < now).
Proof.
  unfold not_cooling. destruct (cooled_until r) as [c|].
  - rewrite Z.ltb_lt. split.
    + intros H. right. exists c. auto.
    + intros [H|(c' & H & Hlt)]; [discriminate | congruence].
  - split; auto.
Qed.

Lemma not_past_expiry_spec (now : datetime) (r : Token) :
  not_past_expiry now r = true <->
  (expiry_time r = None \/ exists e, expiry_time r = Some e /\ now < e).
Proof.
  unfold not_past_expiry. destruct (expiry_time r) as [e|].
  - rewrite Z.ltb_lt. split.
    + intros H. right. exists e. auto.
    + intros [H|(e' & H & Hlt)]; [discriminate | congruence].
  - split; auto.
Qed.

Lemma selectable_spec (now : datetime) (r : Token) :
  selectable now r = true <->
  is_active r = true /\
  (cooled_until r = None \/ exists c, cooled_until r = Some c /\ c < now) /\
  (expiry_time r = None \/ exists e, expiry_time r = Some e /\ now < e).
Proof.
  unfold selectable.
  rewrite !andb_true_iff, not_cooling_spec, not_past_expiry_spec. tauto.
Qed.

(** C4. Every credential [get_active_tokens] returns is active, is not
    cooling down (no cooldown time, or one already past) and is not past its
    expiry time (none, or one still ahead); the result holds exactly the rows
    of the table that meet the three conditions, each as often as the table
    has it; and it is ordered by [last_used_at] ascending, never-used
    credentials first. *)
Theorem get_active_tokens_selects_and_orders :
  forall (now : datetime) (t : table),
    Forall (fun r =>
              is_active r = true /\
              (cooled_until r = None \/ exists c, cooled_until r = Some c /\ c < now) /\
              (expiry_time r = None \/ exists e, expiry_time r = Some e /\ now < e))
           (get_active_tokens now t) /\
    (forall r, In r (get_active_tokens now t) <->
               In r t /\ selectable now r = true) /\
    Permutation (get_active_tokens now t) (filter (selectable now) t) /\
    StronglySorted last_used_le (get_active_tokens now t).
Proof.
  intros now t. unfold get_active_tokens.
  pose proof (order_by_last_used_perm (filter (selectable now) t)) as Hperm.
  assert (Hin : forall r, In r (order_by_last_used (filter (selectable now) t)) <->
                          In r t /\ selectable now r = true).
  { intros r. rewrite <- filter_In. split; apply Permutation_in;
      [exact Hperm | apply Permutation_sym, Hperm]. }
  split; [|split; [exact Hin | split]].
  - apply Forall_forall. intros r Hr. apply selectable_spec, Hin, Hr.
  - exact Hperm.
  - apply order_by_last_used_sorted.
Qed.

Lemma has_id_set_expired (tid : Z) (r : Token) :
  has_id tid (set_expired r) = has_id tid r.
Proof. reflexivity. Qed.

Lemma get_token_mark_same (tid : Z) (t : table) :
  get_token tid (mark_token_expired tid t) = option_map set_expired (get_token tid t).
Proof.
  unfold get_token, mark_token_expired, update_where.
  induction t as [|r t IH]; simpl; [reflexivity|].
  destruct (has_id tid r) eqn:E; simpl.
  - rewrite has_id_set_expired, E. reflexivity.
  - rewrite E. exact IH.
Qed.

Lemma has_id_inj (tid tid' : Z) (r : Token) :
  has_id tid r = true -> has_id tid' r = true -> tid' = tid.
Proof.
  unfold has_id, opt_eqb. destruct (id r); [|discriminate].
  rewrite !Z.eqb_eq. congruence.
Qed.

Lemma get_token_mark_other (tid tid' : Z) (t : table) :
  tid' <> tid ->
  get_token tid' (mark_token_expired tid t) = get_token tid' t.
Proof.
  intros Hne. unfold get_token, mark_token_expired, update_where.
  induction t as [|r t IH]; simpl; [reflexivity|].
  destruct (has_id tid r) eqn:E; simpl.
  - rewrite has_id_set_expired.
    destruct (has_id tid' r) eqn:E'.
    + exfalso. apply Hne. eapply has_id_inj; eassumption.
    + exact IH.
  - destruct (has_id tid' r); [reflexivity | exact IH].
Qed.

(** C9. [mark_token_expired]: the credential read back afterwards has
    [is_expired] true and [is_active] false and every other column as before;
    every other credential reads as before, and each row of the table that is
    not the credential's is the same row afterwards. *)
Theorem mark_token_expired_frame :
  forall (tid : Z) (t : table) (r : Token),
    get_token tid t = Some r ->
    exists r',
      get_token tid (mark_token_expired tid t) = Some r' /\
      is_expired r' = true /\
      is_active r' = false /\
      same_other_columns r r' /\
      (forall tid', tid' <> tid ->
         get_token tid' (mark_token_expired tid t) = get_token tid' t) /\
      List.length (mark_token_expired tid t) = List.length t /\
      (forall i x, nth_error t i = Some x -> has_id tid x = false ->
                   nth_error (mark_token_expired tid t) i = Some x).
Proof.
  intros tid t r Hr. exists (set_expired r).
  split; [rewrite get_token_mark_same, Hr; reflexivity|].
  split; [reflexivity|]. split; [reflexivity|].
  split; [unfold same_other_columns; repeat split|].
  split; [intros tid' Hne; apply get_token_mark_other; exact Hne|].
  unfold mark_token_expired, update_where.
  split; [apply length_map|].
  intros i x Hx Hid. rewrite nth_error_map, Hx. simpl. rewrite Hid. reflexivity.
Qed.

End TokenFacts.

Example get_active_tokens_at_100 :
  Tok.get_active_tokens 100 pool_of_five
  = [credential 5 true None (Some 300) None;
     credential 2 true (Some 90) None (Some 10);
     credential 1 true None None (Some 40)].
Proof. reflexivity. Qed.

Example get_active_tokens_after_expiry :
  Tok.get_active_tokens 300 pool_of_five
  = [credential 4 true (Some 200) None (Some 5);
     credential 2 true (Some 90) None (Some 10);
     credential 1 true None None (Some 40)].
Proof. reflexivity. Qed.

Lemma mark_token_expired_frame_witness :
  Tok.get_token 2 pool_of_five = Some (credential 2 true (Some 90) None (Some 10)) /\
  exists r',
    Tok.get_token 2 (Tok.mark_token_expired 2 pool_of_five) = Some r' /\
    Tok.is_expired r' = true /\
    Tok.is_active r' = false /\
    Tok.get_token 1 (Tok.mark_token_expired 2 pool_of_five)
      = Tok.get_token 1 pool_of_five.
Proof.
  split; [reflexivity|].
  destruct (@mark_token_expired_frame 2 pool_of_five
              (credential 2 true (Some 90) None (Some 10)) eq_refl)
    as (r' & Hget & Hexp & Hact & _ & Hother & _).
  exists r'. split; [exact Hget|]. split; [exact Hexp|]. split; [exact Hact|].
  apply Hother. discriminate.
Defined.

(** ** [add_token] and the store invariant *)

Section StoreFacts.

Import Db.

Lemma ids_below_seq_empty : ids_below_seq empty.
Proof. split; constructor. Qed.

Lemma find_app_none {A} (p : A -> bool) (l : list A) (x : A) :
  Forall (fun y => p y = false) l ->
  find p (l ++ [x]) = if p x then Some x else None.
Proof.
  induction 1 as [|y l Hy _ IH]; simpl; [reflexivity|].
  rewrite Hy. exact IH.
Qed.

Lemma filter_app_none {A} (p : A -> bool) (l : list A) (x : A) :
  Forall (fun y => p y = false) l ->
  filter p (l ++ [x]) = if p x then [x] else [].
Proof.
  induction 1 as [|y l Hy _ IH]; simpl; [reflexivity|].
  rewrite Hy. exact IH.
Qed.

Lemma fresh_token_id (s : store) :
  ids_below_seq s ->
  Forall (fun r => Tok.has_id (tokens_id_seq s) r = false) (tokens s).
Proof.
  intros [Ht _]. eapply Forall_impl; [|exact Ht].
  intros r (i & Hi & Hlt). unfold Tok.has_id. rewrite Hi. simpl.
  apply Z.eqb_neq. lia.
Qed.

Lemma fresh_stats_token_id (s : store) :
  ids_below_seq s ->
  Forall (fun r => (Stats.token_id r =? tokens_id_seq s) = false) (token_stats s).
Proof.
  intros [_ Hs]. eapply Forall_impl; [|exact Hs].
  intros r Hlt. simpl in Hlt. apply Z.eqb_neq. lia.
Qed.

Lemma ids_below_seq_advance (s : store) (tk : Tok.table) (st : Stats.table) (n m : Z) :
  ids_below_seq s -> tokens_id_seq s <= n ->
  ids_below_seq (mkStore (tokens s) (token_stats s) n m).
Proof.
  intros [Ht Hs] Hle. split; simpl.
  - eapply Forall_impl; [|exact Ht]. intros r (i & Hi & Hlt). exists i. split; [auto|lia].
  - eapply Forall_impl; [|exact Hs]. simpl. intros r Hlt. lia.
Qed.

(** C10. [add_token] on a store whose ids were all drawn from the sequence:
    when it returns [token_id], the credential row with that id is in
    [tokens] and the token has exactly one stats row, whose counters (image,
    video, error, same-day and consecutive-error) are all zero; when it
    raises, [tokens] and [token_stats] are as before the call.  It returns
    when neither INSERT raises and raises otherwise, and the invariant holds
    afterwards either way. *)
Theorem add_token_one_zero_stats_row :
  forall (f : faults) (now : datetime) (tok : Tok.Token) (s : store),
    ids_below_seq s ->
    (insert_token_raises f = false /\ insert_stats_raises f = false <->
     exists tid, snd (add_token f now tok s) = Ok tid) /\
    match add_token f now tok s with
    | (s', Ok tid) =>
        tokens s' = tokens s ++ [new_token_row tid now tok] /\
        Tok.get_token tid (tokens s') = Some (new_token_row tid now tok) /\
        (exists sid,
           stats_of tid s' = [Stats.mkTokenStats (Some sid) tid 0 0 0 None 0 0 0 None 0] /\
           token_stats s' = token_stats s ++ stats_of tid s') /\
        ids_below_seq s'
    | (s', Raised _) =>
        tokens s' = tokens s /\ token_stats s' = token_stats s /\ ids_below_seq s'
    end.
Proof.
  intros f now tok s Hinv.
  pose proof (fresh_token_id Hinv) as Hfresh.
  pose proof (fresh_stats_token_id Hinv) as Hfresh'.
  unfold add_token, transaction, bind, insert_token, insert_stats, ret.
  destruct f as [ft fs]; simpl.
  destruct ft; simpl.
  - split.
    + split; [intros [H _]; discriminate | intros [tid H]; discriminate].
    + repeat split; try reflexivity.
      * apply (proj1 (ids_below_seq_advance (tokens s) (token_stats s)
                        (token_stats_id_seq s) Hinv
                        (Z.le_succ_diag_r (tokens_id_seq s)))).
      * apply (proj2 (ids_below_seq_advance (tokens s) (token_stats s)
                        (token_stats_id_seq s) Hinv
                        (Z.le_succ_diag_r (tokens_id_seq s)))).
  - destruct fs; simpl.
    + split.
      * split; [intros [_ H]; discriminate | intros [tid H]; discriminate].
      * repeat split; try reflexivity.
        -- apply (proj1 (ids_below_seq_advance (tokens s) (token_stats s)
                           (token_stats_id_seq s + 1) Hinv
                           (Z.le_succ_diag_r (tokens_id_seq s)))).
        -- apply (proj2 (ids_below_seq_advance (tokens s) (token_stats s)
                           (token_stats_id_seq s + 1) Hinv
                           (Z.le_succ_diag_r (tokens_id_seq s)))).
    + split.
      * split; [intros _; eexists; reflexivity | auto].
      * split; [reflexivity|].
        split.
        { unfold Tok.get_token. rewrite find_app_none by exact Hfresh.
          unfold Tok.has_id. simpl. rewrite Z.eqb_refl. reflexivity. }
        split.
        { exists (token_stats_id_seq s). unfold stats_of. simpl.
          rewrite filter_app_none by exact Hfresh'.
          simpl. rewrite Z.eqb_refl. split; reflexivity. }
        destruct Hinv as [Ht Hs]. split; simpl.
        -- apply Forall_app. split.
           ++ eapply Forall_impl; [|exact Ht].
              intros r (i & Hi & Hlt). exists i. split; [auto|lia].
           ++ constructor; [|constructor]. eexists. split; [reflexivity|lia].
        -- apply Forall_app. split.
           ++ eapply Forall_impl; [|exact Hs]. simpl. intros r Hlt. lia.
           ++ constructor; [|constructor]. simpl. lia.
Qed.

Lemma delete_token_keeps_ids_below_seq (tid : Z) (s : store) :
  ids_below_seq s -> ids_below_seq (fst (delete_token tid s)).
Proof.
  intros [Ht Hs]. unfold delete_token, transaction. simpl. split; simpl.
  - apply Forall_forall. intros r Hr. apply filter_In in Hr.
    exact (proj1 (Forall_forall _ _) Ht r (proj1 Hr)).
  - apply Forall_forall. intros r Hr. apply filter_In in Hr.
    exact (proj1 (Forall_forall _ _) Hs r (proj1 Hr)).
Qed.

Lemma add_token_keeps_ids_below_seq (f : faults) (now : datetime)
    (tok : Tok.Token) (s : store) :
  ids_below_seq s -> ids_below_seq (fst (add_token f now tok s)).
Proof.
  intros Hinv.
  unfold add_token, transaction, bind, insert_token, insert_stats, ret.
  destruct f as [[|] [|]]; simpl;
    try (apply (ids_below_seq_advance (tokens s) (token_stats s));
         [exact Hinv | simpl; lia]).
  destruct Hinv as [Ht Hs]. split; simpl; apply Forall_app; split.
  - eapply Forall_impl; [|exact Ht].
    intros r (i & Hi & Hlt). exists i. split; [auto|lia].
  - constructor; [|constructor]. eexists. split; [reflexivity|lia].
  - eapply Forall_impl; [|exact Hs]. simpl. intros r Hlt. lia.
  - constructor; [|constructor]. simpl. lia.
Qed.

Lemma reachable_ids_below_seq (s : store) : reachable s -> ids_below_seq s.
Proof.
  induction 1 as [|f now tok s _ IH|tid s _ IH].
  - apply ids_below_seq_empty.
  - apply add_token_keeps_ids_below_seq, IH.
  - apply delete_token_keeps_ids_below_seq, IH.
Qed.

End StoreFacts.

Example add_token_on_empty_store :
  Db.add_token Db.no_faults 50 (credential 0 true None None None) Db.empty
  = (Db.mkStore
       [Db.new_token_row 1 50 (credential 0 true None None None)]
       [Stats.mkTokenStats (Some 1) 1 0 0 0 None 0 0 0 None 0]
       2 2,
     Db.Ok 1).
Proof. reflexivity. Qed.

(** The second INSERT raises: the credential row written by the first one is
    rolled back with it. *)
Example add_token_rolls_back :
  Db.add_token (Db.mkFaults false true) 50 (credential 0 true None None None) Db.empty
  = (Db.mkStore [] [] 2 2, Db.Raised (Db.PostgresError "INSERT INTO token_stats")).
Proof. reflexivity. Qed.

Lemma add_token_one_zero_stats_row_witness :
  Db.ids_below_seq Db.empty /\
  match Db.add_token Db.no_faults 50 (credential 0 true None None None) Db.empty with
  | (s', Db.Ok tid) =>
      Db.tokens s' = Db.tokens Db.empty
                     ++ [Db.new_token_row tid 50 (credential 0 true None None None)] /\
      Tok.get_token tid (Db.tokens s')
        = Some (Db.new_token_row tid 50 (credential 0 true None None None)) /\
      (exists sid,
         Db.stats_of tid s'
           = [Stats.mkTokenStats (Some sid) tid 0 0 0 None 0 0 0 None 0] /\
         Db.token_stats s' = Db.token_stats Db.empty ++ Db.stats_of tid s') /\
      Db.ids_below_seq s'
  | (s', Db.Raised _) =>
      Db.tokens s' = Db.tokens Db.empty /\
      Db.token_stats s' = Db.token_stats Db.empty /\
      Db.ids_below_seq s'
  end.
Proof.
  split; [exact ids_below_seq_empty|].
  exact (proj2 (@add_token_one_zero_stats_row Db.no_faults 50
                  (credential 0 true None None None) Db.empty ids_below_seq_empty)).
Defined.

(** ** Tasks *)

Section TaskFacts.

Import Tasks.

Lemma get_task_update_same (now : datetime) (tid st : string) (pr : Q)
    (ru em : option string) (t : table) :
  get_task tid (update_task now tid st pr ru em t)
  = option_map (set_task now st pr ru em) (get_task tid t).
Proof.
  unfold get_task, update_task.
  induction t as [|r t IH]; simpl; [reflexivity|].
  destruct (String.eqb (task_id r) tid) eqn:E; simpl.
  - rewrite E. reflexivity.
  - rewrite E. exact IH.
Qed.

Lemma get_task_update_other (now : datetime) (tid tid' st : string) (pr : Q)
    (ru em : option string) (t : table) :
  tid' <> tid ->
  get_task tid' (update_task now tid st pr ru em t) = get_task tid' t.
Proof.
  intros Hne. unfold get_task, update_task.
  induction t as [|r t IH]; simpl; [reflexivity|].
  destruct (String.eqb (task_id r) tid) eqn:E; simpl.
  - apply String.eqb_eq in E.
    assert (String.eqb (task_id r) tid' = false) as ->
      by (apply String.eqb_neq; congruence).
    exact IH.
  - destruct (String.eqb (task_id r) tid'); [reflexivity | exact IH].
Qed.

Lemma is_terminal_spec (st : string) :
  is_terminal st = true <-> st = "completed" \/ st = "failed".
Proof.
  unfold is_terminal. rewrite orb_true_iff, !String.eqb_eq. reflexivity.
Qed.

(** What a run of calls on one task leaves to read: after each call, the
    status and the progress of that call. *)
Lemma history_is_the_arguments (tid : string) (calls : list call) :
  Forall (fun c => on_task c = tid) calls ->
  forall (t : table) (r : Task),
    get_task tid t = Some r ->
    map (option_map (fun x => (status x, progress x))) (history tid calls t)
    = map (fun c => Some (new_status c, new_progress c)) calls.
Proof.
  induction 1 as [|c calls Hc _ IH]; intros t r Hr; simpl; [reflexivity|].
  unfold run_call at 1. rewrite Hc, get_task_update_same, Hr. simpl.
  f_equal. eapply IH. unfold run_call.
  rewrite Hc, get_task_update_same, Hr. reflexivity.
Qed.

(** C1, as the code has it.  [update_task] overwrites: the task read back
    after a call has the status, progress, result and error message of that
    call, whatever was stored before, and [completed_at] is set (to the time
    of the call) exactly when the new status is [completed] or [failed]; the
    other columns and the other tasks are untouched.  Over a run of calls on
    the task, the stored status and progress after each call are the
    arguments of that call, so they are monotonic only as far as the
    callers' arguments are. *)
Theorem update_task_stores_arguments :
  forall (now : datetime) (tid st : string) (pr : Q) (ru em : option string)
         (t : table) (r : Task),
    get_task tid t = Some r ->
    (exists r',
       get_task tid (update_task now tid st pr ru em t) = Some r' /\
       status r' = st /\ progress r' = pr /\
       result_urls r' = ru /\ error_message r' = em /\
       (completed_at r' <> None <-> st = "completed" \/ st = "failed") /\
       (st = "completed" \/ st = "failed" -> completed_at r' = Some now) /\
       id r' = id r /\ task_id r' = task_id r /\ token_id r' = token_id r /\
       model r' = model r /\ prompt r' = prompt r /\ created_at r' = created_at r) /\
    (forall tid', tid' <> tid ->
       get_task tid' (update_task now tid st pr ru em t) = get_task tid' t) /\
    (forall calls, Forall (fun c => on_task c = tid) calls ->
       map (option_map (fun x => (status x, progress x))) (history tid calls t)
       = map (fun c => Some (new_status c, new_progress c)) calls).
Proof.
  intros now tid st pr ru em t r Hr. split; [|split].
  - exists (set_task now st pr ru em r).
    split; [rewrite get_task_update_same, Hr; reflexivity|].
    unfold set_task; simpl.
    repeat (split; [reflexivity|]).
    split; [|split; [|repeat split]].
    + rewrite <- is_terminal_spec. destruct (is_terminal st); split;
        intros H; try reflexivity; try discriminate; try congruence.
    + rewrite <- is_terminal_spec. intros ->. reflexivity.
  - intros tid' Hne. apply get_task_update_other. exact Hne.
  - intros calls Hcalls. eapply history_is_the_arguments; eassumption.
Qed.

End TaskFacts.

(** C1 fails as stated: nothing in [update_task] compares with the stored
    row.  A second call with a lower progress lowers the stored progress
    while the task is processing, and a task can leave [processing] for a
    terminal status twice. *)
Lemma update_task_is_not_monotonic :
  (Tasks.progress_while_processing
     (Tasks.history "task_1" falling_progress task_in_progress) = [50; 10]%Q /\
   ~ Tasks.non_decreasing
       (Tasks.progress_while_processing
          (Tasks.history "task_1" falling_progress task_in_progress))) /\
  (Tasks.statuses (Tasks.history "task_1" finished_twice task_in_progress)
     = ["completed"; "processing"; "failed"] /\
   Tasks.terminal_transitions "processing"
     (Tasks.statuses (Tasks.history "task_1" finished_twice task_in_progress))
     = 2%nat).
Proof.
  split; split; try reflexivity.
  simpl. intros [H _]. revert H. unfold Qle. simpl. lia.
Qed.

Lemma update_task_stores_arguments_witness :
  Tasks.get_task "task_1" task_in_progress
    = Some (Tasks.mkTask (Some 1) "task_1" 1 "sora2-landscape-10s" "a red fox"
              "processing" 0 None None (Some 0) None) /\
  exists r',
    Tasks.get_task "task_1"
      (Tasks.update_task 10 "task_1" "failed" 40 None (Some "timeout") task_in_progress)
      = Some r' /\
    Tasks.status r' = "failed" /\ Tasks.progress r' = 40%Q /\
    Tasks.completed_at r' = Some 10.
Proof.
  split; [reflexivity|].
  destruct (proj1 (@update_task_stores_arguments 10 "task_1" "failed" 40%Q None
                     (Some "timeout") task_in_progress _ eq_refl))
    as (r' & Hget & Hst & Hpr & _ & _ & _ & Hdone & _).
  exists r'. split; [exact Hget|]. split; [exact Hst|]. split; [exact Hpr|].
  apply Hdone. right. reflexivity.
Defined.

(** ** The remix identifier *)

Section RemixFacts.

Import Remix.

Local Open Scope nat_scope.

Lemma length_append (a b : string) :
  String.length (a ++ b) = String.length a + String.length b.
Proof. induction a as [|c a IH]; simpl; [reflexivity | rewrite IH; reflexivity]. Qed.

Lemma append_same_length (a b a' b' : string) :
  (a ++ b)%string = (a' ++ b')%string -> String.length a = String.length a' ->
  a = a' /\ b = b'.
Proof.
  revert a'. induction a as [|c a IH]; intros [|c' a'] Heq Hlen; simpl in *;
    try discriminate.
  - split; [reflexivity | exact Heq].
  - injection Heq as -> Heq. injection Hlen as Hlen.
    destruct (IH _ Heq Hlen) as [-> ->]. split; reflexivity.
Qed.

Lemma take_hex_sound (n : nat) (s h : string) :
  take_hex n s = Some h ->
  exists post, s = (h ++ post)%string /\ String.length h = n /\
               Forall (fun c => is_hex_lower c = true) (list_ascii_of_string h).
Proof.
  revert s h. induction n as [|n IH]; intros s h; simpl.
  - intros [= <-]. exists s. repeat split. constructor.
  - destruct s as [|c rest]; [discriminate|].
    destruct (is_hex_lower c) eqn:Hc; [|discriminate].
    destruct (take_hex n rest) as [h0|] eqn:E; simpl; [|discriminate].
    intros [= <-]. destruct (IH _ _ E) as (post & -> & Hlen & Hall).
    exists post. simpl. repeat split; [f_equal; exact Hlen | constructor; assumption].
Qed.

Lemma take_hex_complete (h post : string) :
  Forall (fun c => is_hex_lower c = true) (list_ascii_of_string h) ->
  take_hex (String.length h) (h ++ post) = Some h.
Proof.
  induction h as [|c h IH]; simpl; [reflexivity|].
  intros Hall. inversion Hall as [|? ? Hc Hrest]; subst.
  rewrite Hc, IH by exact Hrest. reflexivity.
Qed.

Lemma remix_shape_length (m : string) : remix_shape m -> String.length m = 34.
Proof. intros (h & -> & Hlen & _). simpl. rewrite Hlen. reflexivity. Qed.

Lemma match_here_sound (s m : string) :
  match_here s = Some m -> exists post, s = (m ++ post)%string /\ remix_shape m.
Proof.
  unfold match_here. destruct s as [|c1 [|c2 rest]]; try discriminate.
  destruct (Ascii.eqb c1 "s") eqn:E1; [|discriminate].
  destruct (Ascii.eqb c2 "_") eqn:E2; [|discriminate]. cbn [andb].
  apply Ascii.eqb_eq in E1, E2. subst c1 c2.
  destruct (take_hex 32 rest) as [h|] eqn:E; simpl; [|discriminate].
  intros [= <-].
  destruct (take_hex_sound _ _ E) as (post & -> & Hlen & Hall).
  exists post. split; [reflexivity|]. exists h. auto.
Qed.

Lemma match_here_complete (m post : string) :
  remix_shape m -> match_here (m ++ post) = Some m.
Proof.
  intros (h & -> & Hlen & Hall).
  change (option_map (fun h0 => String "s" (String "_" h0))
            (take_hex 32 (h ++ post)) = Some (String "s" (String "_" h))).
  rewrite <- Hlen, take_hex_complete by exact Hall. reflexivity.
Qed.

Lemma re_search_cons (c : ascii) (rest : string) :
  re_search (String c rest)
  = match match_here (String c rest) with
    | Some m => Some m
    | None => re_search rest
    end.
Proof. reflexivity. Qed.

(** [re.search] finds an occurrence of the shape and none starts before it. *)
Lemma re_search_some (text m : string) :
  re_search text = Some m ->
  exists pre post,
    text = (pre ++ m ++ post)%string /\ remix_shape m /\
    forall pre' m' post',
      text = (pre' ++ m' ++ post')%string -> remix_shape m' ->
      String.length pre <= String.length pre'.
Proof.
  induction text as [|c rest IH].
  - discriminate.
  - rewrite re_search_cons.
    destruct (match_here (String c rest)) as [m0|] eqn:E.
    + intros [= <-]. destruct (match_here_sound _ E) as (post & Heq & Hshape).
      exists EmptyString, post. simpl. split; [exact Heq|]. split; [exact Hshape|].
      intros; apply Nat.le_0_l.
    + intros Hs. destruct (IH Hs) as (pre & post & -> & Hshape & Hleft).
      exists (String c pre), post. split; [reflexivity|]. split; [exact Hshape|].
      intros [|c' pre'] m' post' Heq Hm'; simpl in Heq.
      * rewrite Heq, match_here_complete in E by exact Hm'. discriminate.
      * injection Heq as _ Heq. simpl. apply le_n_S. eapply Hleft; eassumption.
Qed.

Lemma re_search_none (text : string) :
  re_search text = None ->
  forall pre m post, text = (pre ++ m ++ post)%string -> ~ remix_shape m.
Proof.
  induction text as [|c rest IH].
  - intros _ [|? ?] m post Heq Hm; simpl in Heq; [|discriminate].
    apply remix_shape_length in Hm. destruct m; simpl in *; discriminate.
  - rewrite re_search_cons.
    destruct (match_here (String c rest)) as [m0|] eqn:E; [discriminate|].
    intros Hs [|c' pre] m post Heq Hm; simpl in Heq.
    + rewrite Heq, match_here_complete in E by exact Hm. discriminate.
    + injection Heq as _ Heq. exact (IH Hs _ _ _ Heq Hm).
Qed.

Lemma extract_is_search (text : string) :
  _extract_remix_id text
  = match re_search text with Some m => m | None => EmptyString end.
Proof. destruct text; reflexivity. Qed.

Lemma extract_first_occurrence (text pre m post : string) :
  text = (pre ++ m ++ post)%string -> remix_shape m ->
  (forall pre' m' post',
     text = (pre' ++ m' ++ post')%string -> remix_shape m' ->
     String.length pre <= String.length pre') ->
  _extract_remix_id text = m.
Proof.
  intros Heq Hm Hleft. rewrite extract_is_search.
  destruct (re_search text) as [m0|] eqn:E.
  - destruct (re_search_some _ E) as (pre0 & post0 & Heq0 & Hm0 & Hleft0).
    assert (Hlen : String.length pre0 = String.length pre).
    { apply Nat.le_antisymm; [eapply Hleft0 | eapply Hleft]; eassumption. }
    rewrite Heq in Heq0. symmetry in Heq0.
    destruct (append_same_length _ _ _ _ Heq0 Hlen) as [_ Hrest].
    apply append_same_length in Hrest; [tauto|].
    rewrite (remix_shape_length Hm), (remix_shape_length Hm0). reflexivity.
  - exfalso. exact (@re_search_none _ E _ _ _ Heq Hm).
Qed.

Lemma extract_no_occurrence (text : string) :
  (forall pre m post, text = (pre ++ m ++ post)%string -> ~ remix_shape m) ->
  _extract_remix_id text = EmptyString.
Proof.
  intros Hnone. rewrite extract_is_search.
  destruct (re_search text) as [m0|] eqn:E; [|reflexivity].
  destruct (re_search_some _ E) as (pre0 & post0 & Heq0 & Hm0 & _).
  exfalso. exact (Hnone _ _ _ Heq0 Hm0).
Qed.

Lemma extract_is_empty_or_occurs (text : string) :
  _extract_remix_id text = EmptyString \/
  exists pre post,
    text = (pre ++ _extract_remix_id text ++ post)%string /\
    remix_shape (_extract_remix_id text).
Proof.
  rewrite extract_is_search.
  destruct (re_search text) as [m0|] eqn:E; [right | left; reflexivity].
  destruct (re_search_some _ E) as (pre0 & post0 & Heq0 & Hm0 & _). eauto.
Qed.

End RemixFacts.

Section ChatContentFacts.

Import Routes Remix.

Lemma read_item_keeps_explicit (st : chat_inputs) (item : content_item) :
  str_truthy (remix_target_id st) = true ->
  remix_target_id (read_item st item) = remix_target_id st /\
  scanned (read_item st item) = scanned st.
Proof.
  intros Ht. destruct item as [text|url|url|]; simpl.
  - unfold fill_remix_target. rewrite Ht. split; reflexivity.
  - destruct (Str.startswith "data:image" url); split; reflexivity.
  - destruct (Str.startswith "data:video" url || Str.startswith "data:application" url);
      split; reflexivity.
  - split; reflexivity.
Qed.

Lemma read_items_keep_explicit (items : list content_item) (st : chat_inputs) :
  str_truthy (remix_target_id st) = true ->
  remix_target_id (fold_left read_item items st) = remix_target_id st /\
  scanned (fold_left read_item items st) = scanned st.
Proof.
  revert st. induction items as [|item items IH]; intros st Ht; simpl.
  - split; reflexivity.
  - destruct (read_item_keeps_explicit st item Ht) as [Hr Hs].
    destruct (IH (read_item st item)) as [Hr' Hs']; [rewrite Hr; exact Ht|].
    rewrite Hr', Hs', Hr, Hs. split; reflexivity.
Qed.

Lemma last_cons_default {A} (l : list A) :
  forall a d : A, last (a :: l) d = last l a.
Proof.
  induction l as [|b l IH]; intros a d; [reflexivity|].
  change (last (a :: b :: l) d) with (last (b :: l) d).
  rewrite (IH b d), (IH b a). reflexivity.
Qed.

Lemma read_items_prompt (items : list content_item) (st : chat_inputs) :
  chat_prompt (fold_left read_item items st) = last (texts_of items) (chat_prompt st).
Proof.
  revert st. induction items as [|item items IH]; intros st; [reflexivity|].
  change (fold_left read_item (item :: items) st)
    with (fold_left read_item items (read_item st item)).
  rewrite IH. destruct item as [text|url|url|]; simpl.
  - assert (Hp : chat_prompt (fill_remix_target text st) = text)
      by (unfold fill_remix_target; destruct (str_truthy (remix_target_id st));
          reflexivity).
    rewrite Hp. symmetry. apply last_cons_default.
  - destruct (Str.startswith "data:image" url); reflexivity.
  - destruct (Str.startswith "data:video" url || Str.startswith "data:application" url);
      reflexivity.
  - reflexivity.
Qed.

Lemma read_item_not_text (st : chat_inputs) (item : content_item) :
  (forall text, item <> TextItem text) ->
  remix_target_id (read_item st item) = remix_target_id st /\
  scanned (read_item st item) = scanned st.
Proof.
  intros Hn. destruct item as [text|url|url|]; simpl.
  - exfalso. exact (Hn text eq_refl).
  - destruct (Str.startswith "data:image" url); split; reflexivity.
  - destruct (Str.startswith "data:video" url || Str.startswith "data:application" url);
      split; reflexivity.
  - split; reflexivity.
Qed.

Lemma str_truthy_nonempty (s : string) :
  s <> EmptyString -> str_truthy (Some s) = true.
Proof. destruct s; [intros H; exfalso; apply H; reflexivity | reflexivity]. Qed.

(** Array content read from a state without an id: the text items are given
    to [_extract_remix_id] in turn, up to the first one that has an id. *)
Lemma read_items_scan (items : list content_item) :
  forall st : chat_inputs,
    str_truthy (remix_target_id st) = false ->
    (forall before text after,
       texts_of items = before ++ text :: after ->
       Forall (fun u => _extract_remix_id u = EmptyString) before ->
       _extract_remix_id text <> EmptyString ->
       remix_target_id (fold_left read_item items st) = Some (_extract_remix_id text) /\
       scanned (fold_left read_item items st) = scanned st ++ before ++ [text]) /\
    (Forall (fun u => _extract_remix_id u = EmptyString) (texts_of items) ->
       remix_target_id (fold_left read_item items st)
       = match texts_of items with
         | [] => remix_target_id st
         | _ :: _ => Some EmptyString
         end /\
       scanned (fold_left read_item items st) = scanned st ++ texts_of items).
Proof.
  induction items as [|item items IH]; intros st Hf.
  - split.
    + intros before text after Heq. destruct before; discriminate Heq.
    + intros _. simpl. rewrite app_nil_r. split; reflexivity.
  - change (fold_left read_item (item :: items) st)
      with (fold_left read_item items (read_item st item)).
    destruct item as [x|url|url|].
    + change (texts_of (TextItem x :: items)) with (x :: texts_of items).
      assert (Hst : read_item st (TextItem x)
                    = mkChatInputs x (image_data st) (video_data st)
                        (Some (_extract_remix_id x)) (scanned st ++ [x]))
        by (simpl; unfold fill_remix_target; rewrite Hf; reflexivity).
      rewrite Hst. split.
      * intros before text after Heq Hall Hne.
        destruct before as [|b before].
        -- simpl in Heq. injection Heq as -> _.
           destruct (read_items_keep_explicit items
                       (mkChatInputs text (image_data st) (video_data st)
                          (Some (_extract_remix_id text)) (scanned st ++ [text])))
             as [Hr Hs]; [apply str_truthy_nonempty; exact Hne|].
           rewrite Hr, Hs. split; reflexivity.
        -- simpl in Heq. injection Heq as -> Heq.
           inversion Hall as [|? ? Hb Hrest]; subst.
           destruct (IH (mkChatInputs b (image_data st) (video_data st)
                           (Some (_extract_remix_id b)) (scanned st ++ [b])))
             as [Hfirst _]; [simpl; rewrite Hb; reflexivity|].
           destruct (Hfirst before text after Heq Hrest Hne) as [Hr Hs].
           rewrite Hr, Hs. simpl. rewrite <- app_assoc. split; reflexivity.
      * intros Hall. inversion Hall as [|? ? Hx Hrest]; subst.
        destruct (IH (mkChatInputs x (image_data st) (video_data st)
                        (Some (_extract_remix_id x)) (scanned st ++ [x])))
          as [_ Hnone]; [simpl; rewrite Hx; reflexivity|].
        destruct (Hnone Hrest) as [Hr Hs]. rewrite Hr, Hs. simpl.
        rewrite Hx, <- app_assoc. split; [|reflexivity].
        destruct (texts_of items); reflexivity.
    + destruct (@read_item_not_text st (ImageUrlItem url)) as [Hr Hs];
        [intros text; discriminate|].
      change (texts_of (ImageUrlItem url :: items)) with (texts_of items).
      destruct (IH (read_item st (ImageUrlItem url))) as [Hfirst Hnone];
        [rewrite Hr; exact Hf|].
      rewrite Hr, Hs in *. split; assumption.
    + destruct (@read_item_not_text st (VideoUrlItem url)) as [Hr Hs];
        [intros text; discriminate|].
      change (texts_of (VideoUrlItem url :: items)) with (texts_of items).
      destruct (IH (read_item st (VideoUrlItem url))) as [Hfirst Hnone];
        [rewrite Hr; exact Hf|].
      rewrite Hr, Hs in *. split; assumption.
    + change (texts_of (OtherItem :: items)) with (texts_of items).
      apply IH. exact Hf.
Qed.

(** C3.  [_extract_remix_id] returns the first occurrence of the shape [s_]
    plus 32 characters of [a-f0-9], wherever it stands in the text (inside a
    URL or bare), and the empty string when the text has no occurrence.
    With no explicit remix id (none, or an empty one) and a string content,
    the route takes the id from the prompt with [_extract_remix_id], scanning
    the prompt once.  With no explicit id and an array content, the prompt is
    the last text item, and the text items are scanned in the order of the
    array up to the first one that has an id, which gives the id: the id is
    the empty string when no text item has one, and stays as it was supplied
    when the array has no text item.  With an explicit id, whatever the
    content, the id is kept and no text is scanned. *)
Theorem remix_id_extraction :
  forall (image video explicit : option string) (prompt : string),
    (str_truthy explicit = false ->
       chat_prompt (read_content image video explicit (ContentStr prompt)) = prompt /\
       remix_target_id (read_content image video explicit (ContentStr prompt))
         = Some (_extract_remix_id prompt) /\
       scanned (read_content image video explicit (ContentStr prompt)) = [prompt]) /\
    (forall pre m post,
       prompt = (pre ++ m ++ post)%string -> remix_shape m ->
       (forall pre' m' post',
          prompt = (pre' ++ m' ++ post')%string -> remix_shape m' ->
          (String.length pre <= String.length pre')%nat) ->
       _extract_remix_id prompt = m) /\
    ((forall pre m post, prompt = (pre ++ m ++ post)%string -> ~ remix_shape m) ->
       _extract_remix_id prompt = EmptyString) /\
    (_extract_remix_id prompt = EmptyString \/
     exists pre post,
       prompt = (pre ++ _extract_remix_id prompt ++ post)%string /\
       remix_shape (_extract_remix_id prompt)) /\
    (str_truthy explicit = true ->
       forall content,
         remix_target_id (read_content image video explicit content) = explicit /\
         scanned (read_content image video explicit content) = []) /\
    (str_truthy explicit = false ->
       forall items,
         chat_prompt (read_content image video explicit (ContentList items))
           = last (texts_of items) EmptyString /\
         (forall before text after,
            texts_of items = before ++ text :: after ->
            Forall (fun u => _extract_remix_id u = EmptyString) before ->
            _extract_remix_id text <> EmptyString ->
            remix_target_id (read_content image video explicit (ContentList items))
              = Some (_extract_remix_id text) /\
            scanned (read_content image video explicit (ContentList items))
              = before ++ [text]) /\
         (Forall (fun u => _extract_remix_id u = EmptyString) (texts_of items) ->
            texts_of items <> [] ->
            remix_target_id (read_content image video explicit (ContentList items))
              = Some EmptyString /\
            scanned (read_content image video explicit (ContentList items))
              = texts_of items) /\
         (texts_of items = [] ->
            remix_target_id (read_content image video explicit (ContentList items))
              = explicit /\
            scanned (read_content image video explicit (ContentList items)) = [])).
Proof.
  intros image video explicit prompt.
  split; [|split; [|split; [|split; [|split]]]].
  - intros Hf. unfold read_content, fill_remix_target. simpl. rewrite Hf.
    repeat split; reflexivity.
  - intros pre m post. apply extract_first_occurrence.
  - apply extract_no_occurrence.
  - apply extract_is_empty_or_occurs.
  - intros Ht [text|items]; unfold read_content.
    + unfold fill_remix_target. simpl. rewrite Ht. split; reflexivity.
    + apply (read_items_keep_explicit items
               (mkChatInputs EmptyString image video explicit [])). exact Ht.
  - intros Hf items. unfold read_content.
    destruct (read_items_scan items
                (mkChatInputs EmptyString image video explicit []) Hf)
      as [Hfirst Hnone].
    split; [apply read_items_prompt|].
    split; [exact Hfirst|].
    split.
    + intros Hall Hne. destruct (Hnone Hall) as [Hr Hs].
      rewrite Hr, Hs. destruct (texts_of items); [exfalso; apply Hne; reflexivity|].
      split; reflexivity.
    + intros Hnil. destruct (Hnone ltac:(rewrite Hnil; constructor)) as [Hr Hs].
      rewrite Hr, Hs, Hnil. split; reflexivity.
Qed.
End ChatContentFacts.

Example extract_from_share_link :
  Remix._extract_remix_id prompt_with_share_link = "s_68e3a06dcd888191b150971da152c1f5".
Proof. reflexivity. Qed.

Example extract_bare_identifier :
  Remix._extract_remix_id "s_68e3a06dcd888191b150971da152c1f5"
  = "s_68e3a06dcd888191b150971da152c1f5".
Proof. reflexivity. Qed.

Example extract_rejects_upper_case :
  Remix._extract_remix_id "s_68E3A06DCD888191B150971DA152C1F5" = EmptyString.
Proof. reflexivity. Qed.

Example extract_takes_the_first_of_two :
  Remix._extract_remix_id
    "s_00000000000000000000000000000000 s_11111111111111111111111111111111"
  = "s_00000000000000000000000000000000".
Proof. reflexivity. Qed.

(** Array content: the text items are scanned in turn until one gives an id;
    the prompt is the last text item. *)
Example read_array_content :
  Routes.read_content None None None
    (Routes.ContentList
       [Routes.TextItem "s_00000000000000000000000000000000";
        Routes.ImageUrlItem "data:image/png;base64,AAAA";
        Routes.TextItem "make it rain"])
  = Routes.mkChatInputs "make it rain" (Some "AAAA") None
      (Some "s_00000000000000000000000000000000")
      ["s_00000000000000000000000000000000"].
Proof. reflexivity. Qed.

(** C3 fails as stated for array content: the prompt is the last text item,
    while the id comes from the first text item that has one, so the id is
    not the first occurrence in the prompt; and an array without a text item
    leaves the id unset, where the empty string was claimed. *)
Lemma array_content_id_is_not_from_the_prompt :
  (Routes.chat_prompt
     (Routes.read_content None None None
        (Routes.ContentList
           [Routes.TextItem "old s_00000000000000000000000000000000";
            Routes.TextItem "remix s_11111111111111111111111111111111"]))
   = "remix s_11111111111111111111111111111111" /\
   Remix._extract_remix_id "remix s_11111111111111111111111111111111"
   = "s_11111111111111111111111111111111" /\
   Routes.remix_target_id
     (Routes.read_content None None None
        (Routes.ContentList
           [Routes.TextItem "old s_00000000000000000000000000000000";
            Routes.TextItem "remix s_11111111111111111111111111111111"]))
   = Some "s_00000000000000000000000000000000") /\
  (Routes.chat_prompt
     (Routes.read_content None None None
        (Routes.ContentList [Routes.ImageUrlItem "data:image/png;base64,AAAA"]))
   = EmptyString /\
   Routes.remix_target_id
     (Routes.read_content None None None
        (Routes.ContentList [Routes.ImageUrlItem "data:image/png;base64,AAAA"]))
   = None).
Proof. repeat split; reflexivity. Qed.

Lemma remix_id_extraction_witness :
  Routes.remix_target_id
    (Routes.read_content None None None (Routes.ContentStr prompt_with_share_link))
    = Some "s_68e3a06dcd888191b150971da152c1f5" /\
  Routes.remix_target_id
    (Routes.read_content None None (Some "s_explicit")
       (Routes.ContentStr prompt_with_share_link))
    = Some "s_explicit" /\
  Routes.remix_target_id
    (Routes.read_content None None None
       (Routes.ContentList
          [Routes.TextItem "a fox";
           Routes.ImageUrlItem "data:image/png;base64,AAAA";
           Routes.TextItem "old s_00000000000000000000000000000000";
           Routes.TextItem "remix s_11111111111111111111111111111111"]))
    = Some "s_00000000000000000000000000000000" /\
  Routes.scanned
    (Routes.read_content None None None
       (Routes.ContentList
          [Routes.TextItem "a fox";
           Routes.ImageUrlItem "data:image/png;base64,AAAA";
           Routes.TextItem "old s_00000000000000000000000000000000";
           Routes.TextItem "remix s_11111111111111111111111111111111"]))
    = ["a fox"; "old s_00000000000000000000000000000000"].
Proof.
  split; [|split].
  - exact (proj1 (proj2 (proj1
             (@remix_id_extraction None None None prompt_with_share_link)
             eq_refl))).
  - exact (proj1 (proj1 (proj2 (proj2 (proj2 (proj2
             (@remix_id_extraction None None (Some "s_explicit")
                prompt_with_share_link)))))
             eq_refl (Routes.ContentStr prompt_with_share_link))).
  - refine (proj1 (proj2
              (proj2 (proj2 (proj2 (proj2 (proj2
                 (@remix_id_extraction None None None prompt_with_share_link)))))
                 eq_refl
                 [Routes.TextItem "a fox";
                  Routes.ImageUrlItem "data:image/png;base64,AAAA";
                  Routes.TextItem "old s_00000000000000000000000000000000";
                  Routes.TextItem "remix s_11111111111111111111111111111111"]))
            ["a fox"] "old s_00000000000000000000000000000000"
            ["remix s_11111111111111111111111111111111"] eq_refl _ _).
    + constructor; [reflexivity | constructor].
    + intros H. vm_compute in H. discriminate H.
Defined.
(** ** The task-status query *)

Section TaskStatusFacts.

Import Json Routes.

Variable json_loads : string -> option json.
Variable isoformat : datetime -> string.

Lemma validate_list_str_strings (urls : list string) :
  validate_list_str (map JStr urls) = Some urls.
Proof.
  induction urls as [|u urls IH]; simpl; [reflexivity|].
  rewrite IH. reflexivity.
Qed.

(** A stored JSON list of strings is returned as that list, for every model. *)
Lemma get_task_status_returns_url_list
    (tasks : Tasks.table) (tid : string) (task : Tasks.Task)
    (c : ascii) (rest : string) (urls : list string) :
  Tasks.get_task tid tasks = Some task ->
  Tasks.result_urls task = Some (String c rest) ->
  json_loads (String c rest) = Some (JArr (map JStr urls)) ->
  exists resp,
    get_task_status json_loads isoformat tasks tid = Returns resp /\
    result_urls resp = Some urls /\
    status resp = Tasks.status task /\ progress resp = Tasks.progress task.
Proof.
  intros Hget Hres Hjson. unfold get_task_status, read_result_urls.
  rewrite Hget, Hres, Hjson. simpl.
  assert (Hv : validate_result_urls (Some (JArr (map JStr urls))) = Some (Some urls)).
  { simpl. rewrite validate_list_str_strings. reflexivity. }
  destruct (String.eqb (Tasks.model task) "character-creation");
    rewrite Hv; eexists; repeat split.
Qed.

(** C2, on the code.  A character-creation task whose stored result is a JSON
    object: [get_task_status] keeps the parsed dict in [result_urls] and hands
    it to [TaskStatusResponse], whose field is [Optional[List[str]]]; the
    model refuses it and the route answers HTTP 500 instead of the object. *)
Theorem get_task_status_rejects_character_object :
  forall (tasks : Tasks.table) (tid : string) (task : Tasks.Task)
         (c : ascii) (rest : string) (fields : list (string * json)),
    Tasks.get_task tid tasks = Some task ->
    Tasks.model task = "character-creation" ->
    Tasks.result_urls task = Some (String c rest) ->
    json_loads (String c rest) = Some (JObj fields) ->
    read_result_urls json_loads task = Some (JObj fields) /\
    get_task_status json_loads isoformat tasks tid
    = Raises (HTTPException 500 (ValidationErrorText "TaskStatusResponse" "result_urls")).
Proof.
  intros tasks tid task c rest fields Hget Hmodel Hres Hjson.
  assert (Hread : read_result_urls json_loads task = Some (JObj fields)).
  { unfold read_result_urls. rewrite Hres, Hjson, Hmodel. reflexivity. }
  split; [exact Hread|].
  unfold get_task_status. rewrite Hget, Hread. reflexivity.
Qed.

End TaskStatusFacts.

(** ** The streaming bodies *)

Section StreamFacts.

Import Json Routes.

Variable json_loads : string -> option json.
Variable json_dumps : json -> string.

(** A generator that finishes is passed through unchanged. *)
Lemma chat_generate_finishes (prefix : list string) :
  chat_generate json_loads json_dumps (mkGeneration prefix Finishes) = prefix.
Proof. unfold chat_generate. simpl. apply app_nil_r. Qed.

(** After an exception every streaming body sends one error event and then
    the terminator, and nothing else. *)
Lemma generate_ends_with_error_then_done (prefix : list string) (e : exn) :
  (exists doc,
     chat_generate json_loads json_dumps (mkGeneration prefix (RaisesExn e))
     = prefix ++ [sse (json_dumps doc); DONE] /\
     (doc = server_error (str e) \/
      json_loads (str e) = Some doc /\ has_key "error" doc = true)) /\
  image_generate json_dumps (mkGeneration prefix (RaisesExn e))
  = prefix ++ [sse (json_dumps (server_error (str e))); DONE].
Proof.
  split; [|reflexivity].
  unfold chat_generate, chat_error_response. simpl.
  destruct (json_loads (str e)) as [d|] eqn:E.
  - destruct (truthy d && is_dict d && has_key "error" d) eqn:Hd.
    + exists d. split; [reflexivity|]. right.
      apply andb_true_iff in Hd. destruct Hd as [_ Hk]. auto.
    + eexists. split; [reflexivity|]. left. reflexivity.
  - eexists. split; [reflexivity|]. left. reflexivity.
Qed.

(** C7, on the code.  An exception whose text parses as a structured error (a
    non-empty dict with the key [error]): the body of [create_chat_completion]
    sends that document as it is, the body of [generate_image] sends the
    generic [server_error] document with the whole text as its message.  Both
    then send the terminator. *)
Theorem image_generate_flattens_structured_error :
  forall (prefix : list string) (text : string) (error_data : json),
    json_loads text = Some error_data ->
    truthy error_data && is_dict error_data && has_key "error" error_data = true ->
    chat_generate json_loads json_dumps (mkGeneration prefix (RaisesExn (Exception text)))
    = prefix ++ [sse (json_dumps error_data); DONE] /\
    image_generate json_dumps (mkGeneration prefix (RaisesExn (Exception text)))
    = prefix ++ [sse (json_dumps (server_error text)); DONE].
Proof.
  intros prefix text error_data Hloads Hdict. split; [|reflexivity].
  unfold chat_generate, chat_error_response. simpl.
  rewrite Hloads, Hdict. reflexivity.
Qed.

End StreamFacts.

(** ** Character creation *)

Section CharacterFacts.

Import Json Routes.

Variable json_dumps : json -> string.
Variable MODEL_CONFIG : list (string * string).

(** C5, as the code has it.  A call with [stream] and [async_mode] both
    false, with the handler set and the default video model configured, is
    answered with HTTP 400, an [invalid_request_error] whose [param] is
    [stream], and the handler is not called. *)
Theorem create_character_requires_stream :
  forall (h : GenerationHandler) (request : CharacterCreateRequest)
         (model_config : string),
    lookup_model MODEL_CONFIG "sora2-landscape-10s" = inr model_config ->
    stream request = false ->
    async_mode request = false ->
    create_character json_dumps MODEL_CONFIG (Some h) request
    = (Returns (JSONResponse 400
         (JObj [("error",
                 JObj [("message",
                        JStr "Character creation requires streaming mode. Please set stream=true");
                       ("type", JStr "invalid_request_error");
                       ("param", JStr "stream");
                       ("code", JNull)])])),
       []).
Proof.
  intros h request model_config Hcfg Hstream Hasync.
  unfold create_character. rewrite Hasync, Hcfg, Hstream. reflexivity.
Qed.

End CharacterFacts.

Example dumps_character_info :
  Sample.dumps Sample.character_info
  = ("{" ++ Sample.quoted "character_id" ++ ": " ++ Sample.quoted "ch_123" ++ ", "
         ++ Sample.quoted "username" ++ ": " ++ Sample.quoted "fox.red" ++ "}")%string.
Proof. reflexivity. Qed.

(** The video task is answered with its URL list. *)
Example get_task_status_video :
  Routes.get_task_status Sample.loads Sample.isoformat Sample.tasks "video_1"
  = Routes.Returns
      (Routes.mkTaskStatusResponse "video_1" "completed" 100 "sora2-landscape-10s"
         "a red fox" (Some ["https://cdn.example.com/a.mp4"]) None
         (Some "10") (Some "30")).
Proof. reflexivity. Qed.

Example get_task_status_unknown :
  Routes.get_task_status Sample.loads Sample.isoformat Sample.tasks "nope"
  = Routes.Raises (Routes.HTTPException 404 (Routes.Detail "Task nope not found")).
Proof. reflexivity. Qed.

Lemma get_task_status_rejects_character_object_witness :
  Routes.read_result_urls Sample.loads
    (Tasks.mkTask (Some 1) "char_1" 1 "character-creation" "character"
       "completed" 100 (Some (Sample.dumps Sample.character_info)) None
       (Some 10) (Some 20))
    = Some Sample.character_info /\
  Routes.get_task_status Sample.loads Sample.isoformat Sample.tasks "char_1"
  = Routes.Raises
      (Routes.HTTPException 500
         (Routes.ValidationErrorText "TaskStatusResponse" "result_urls")).
Proof.
  exact (@get_task_status_rejects_character_object Sample.loads Sample.isoformat
           Sample.tasks "char_1" _ _ _ _ eq_refl eq_refl eq_refl eq_refl).
Defined.

Lemma image_generate_flattens_structured_error_witness :
  Routes.chat_generate Sample.loads Sample.dumps
    (Routes.mkGeneration [Routes.sse "progress"]
       (Routes.RaisesExn (Routes.Exception (Sample.dumps Sample.unsupported_country))))
  = [Routes.sse "progress";
     Routes.sse (Sample.dumps Sample.unsupported_country);
     Routes.DONE] /\
  Routes.image_generate Sample.dumps
    (Routes.mkGeneration [Routes.sse "progress"]
       (Routes.RaisesExn (Routes.Exception (Sample.dumps Sample.unsupported_country))))
  = [Routes.sse "progress";
     Routes.sse (Sample.dumps
                   (Routes.server_error (Sample.dumps Sample.unsupported_country)));
     Routes.DONE].
Proof.
  exact (@image_generate_flattens_structured_error Sample.loads Sample.dumps
           [Routes.sse "progress"] (Sample.dumps Sample.unsupported_country)
           Sample.unsupported_country eq_refl eq_refl).
Defined.

(** C5 fails as stated: with [async_mode] set, a call with [stream] false
    takes the asynchronous branch, which comes before the test of [stream];
    it is not answered with the 400 that names [stream].  (Reading
    [request.timestamps] raises there, so the answer is a 500.) *)
Lemma create_character_async_is_not_rejected_with_400 :
  Routes.create_character Sample.dumps Sample.MODEL_CONFIG (Some Sample.handler)
    (Routes.mkCharacterCreateRequest "https://example.com/fox.mp4" false true)
  = (Routes.Returns
       (Routes.JSONResponse 500
          (Routes.server_error
             "'CharacterCreateRequest' object has no attribute 'timestamps'")),
     []).
Proof. reflexivity. Qed.

Lemma create_character_requires_stream_witness :
  Routes.create_character Sample.dumps Sample.MODEL_CONFIG (Some Sample.handler)
    (Routes.mkCharacterCreateRequest "https://example.com/fox.mp4" false false)
  = (Routes.Returns
       (Routes.JSONResponse 400
          (Routes.error_object
             "Character creation requires streaming mode. Please set stream=true"
             "invalid_request_error" (Json.JStr "stream"))),
     []).
Proof.
  exact (@create_character_requires_stream Sample.dumps Sample.MODEL_CONFIG
           Sample.handler
           (Routes.mkCharacterCreateRequest "https://example.com/fox.mp4" false false)
           "video" eq_refl eq_refl eq_refl).
Defined.

(** * Properties of the other operations *)

(** ** Selection after the writers of [tokens] *)

Section PoolFacts.

Import Tok TokOps.

Lemma in_update_where (tid : Z) (set : Token -> Token) (t : table) (x : Token) :
  In x (update_where tid set t) ->
  exists r, In r t /\ x = (if has_id tid r then set r else r).
Proof.
  unfold update_where. intros H. apply in_map_iff in H.
  destruct H as (r & <- & Hr). exists r. split; [exact Hr | reflexivity].
Qed.

Lemma in_active_in_table (now : datetime) (t : table) (x : Token) :
  In x (get_active_tokens now t) -> In x t /\ selectable now x = true.
Proof.
  unfold get_active_tokens. intros H.
  apply (Permutation_in _ (order_by_last_used_perm _)) in H.
  apply filter_In in H. exact H.
Qed.

Lemma strongly_sorted_tail (l1 : list Token) (x : Token) (l2 : list Token) :
  StronglySorted last_used_le (l1 ++ x :: l2) -> Forall (last_used_le x) l2.
Proof.
  induction l1 as [|h l1 IH]; simpl; intros H; inversion H; subst; auto.
Qed.

(** [update_token_usage] and [get_active_tokens]: whatever stands behind the
    credential just used was itself used at that time or later, so the
    credential goes behind every credential never used or used earlier. *)
Theorem used_credential_goes_last :
  forall (now now' : datetime) (tid : Z) (t : table)
         (l1 : list Token) (x : Token) (l2 : list Token),
    get_active_tokens now' (update_token_usage now tid t) = l1 ++ x :: l2 ->
    has_id tid x = true ->
    last_used_at x = Some now /\
    Forall (fun y => exists u, last_used_at y = Some u /\ now <= u) l2.
Proof.
  intros now now' tid t l1 x l2 Heq Hid.
  assert (Hx : last_used_at x = Some now).
  { assert (Hin : In x (get_active_tokens now' (update_token_usage now tid t)))
      by (rewrite Heq; apply in_elt).
    apply in_active_in_table in Hin. destruct Hin as [Hin _].
    apply in_update_where in Hin. destruct Hin as (r & _ & ->).
    destruct (has_id tid r) eqn:E; [reflexivity | congruence]. }
  split; [exact Hx|].
  pose proof (order_by_last_used_sorted
                (filter (selectable now') (update_token_usage now tid t))) as Hs.
  fold (get_active_tokens now' (update_token_usage now tid t)) in Hs.
  rewrite Heq in Hs. apply strongly_sorted_tail in Hs.
  eapply Forall_impl; [|exact Hs].
  intros y. unfold last_used_le. rewrite Hx.
  destruct (last_used_at y) as [u|]; [eauto | contradiction].
Qed.

(** A credential switched off by [update_token_status] or by
    [mark_token_expired] is in no later result of [get_active_tokens]. *)
Theorem deactivated_credential_is_never_selected :
  forall (now : datetime) (tid : Z) (t : table) (x : Token),
    In x (get_active_tokens now (update_token_status tid false t)) \/
    In x (get_active_tokens now (mark_token_expired tid t)) ->
    has_id tid x = false.
Proof.
  intros now tid t x [H|H]; apply in_active_in_table in H;
    destruct H as [Hin Hsel]; apply in_update_where in Hin;
    destruct Hin as (r & _ & ->);
    destruct (has_id tid r) eqn:E; try exact E;
    unfold selectable in Hsel; simpl in Hsel; discriminate.
Qed.

Lemma filter_map_commute {A} (p : A -> bool) (f : A -> A) (l : list A) :
  (forall a, p (f a) = p a) -> filter p (map f l) = map f (filter p l).
Proof.
  intros Hp. induction l as [|a l IH]; simpl; [reflexivity|].
  rewrite Hp. destruct (p a); simpl; rewrite IH; reflexivity.
Qed.

(** [clear_token_expired] resets [is_expired] and nothing that selection
    reads: before and after it [get_active_tokens] returns credentials with
    the same ids, each as often (the order among credentials with equal
    [last_used_at] is not fixed by the query and is not spoken of).  So a
    credential disabled by [mark_token_expired] is still not selected after
    [clear_token_expired]. *)
Theorem clear_token_expired_does_not_reactivate :
  forall (now : datetime) (tid : Z) (t : table),
    Permutation (ids (get_active_tokens now (clear_token_expired tid t)))
                (ids (get_active_tokens now t)) /\
    (forall x,
       In x (get_active_tokens now (clear_token_expired tid (mark_token_expired tid t))) ->
       has_id tid x = false).
Proof.
  intros now tid t.
  assert (Hids : forall t',
            Permutation (ids (get_active_tokens now (clear_token_expired tid t')))
                        (ids (get_active_tokens now t'))).
  { intros t'. unfold ids, get_active_tokens.
    eapply Permutation_trans;
      [apply Permutation_map, order_by_last_used_perm|].
    eapply Permutation_trans;
      [|apply Permutation_map, Permutation_sym, order_by_last_used_perm].
    unfold clear_token_expired, update_where.
    rewrite filter_map_commute by (intros a; destruct (has_id tid a); reflexivity).
    rewrite map_map.
    erewrite map_ext; [apply Permutation_refl|].
    intros a. destruct (has_id tid a); reflexivity. }
  split; [apply Hids|].
  intros x Hx.
  assert (Hin : In (id x) (ids (get_active_tokens now (mark_token_expired tid t)))).
  { apply (Permutation_in _ (Hids _)). apply in_map. exact Hx. }
  apply in_map_iff in Hin. destruct Hin as (y & Hy & Hin).
  assert (Hf : has_id tid y = false).
  { apply in_active_in_table in Hin. destruct Hin as [Hin Hsel].
    apply in_update_where in Hin. destruct Hin as (r & _ & ->).
    destruct (has_id tid r) eqn:E; [|exact E].
    unfold selectable in Hsel. simpl in Hsel. discriminate. }
  unfold has_id in *. rewrite <- Hy. exact Hf.
Qed.
(** [update_token_cooldown]: the credential is selected at [now] exactly when
    the cooldown time is strictly before [now] (and the credential is active
    and not past its expiry time); while [now <= cooled_until] it is left out. *)
Theorem cooldown_excludes_until_passed :
  forall (now until : datetime) (tid : Z) (t : table),
    (exists x, In x (get_active_tokens now (update_token_cooldown tid until t)) /\
               has_id tid x = true)
    <->
    (until < now /\
     exists r, In r t /\ has_id tid r = true /\
               is_active r = true /\ not_past_expiry now r = true).
Proof.
  intros now until tid t. split.
  - intros (x & Hx & Hid). apply in_active_in_table in Hx.
    destruct Hx as [Hin Hsel]. apply in_update_where in Hin.
    destruct Hin as (r & Hr & ->).
    destruct (has_id tid r) eqn:E; [|congruence].
    unfold selectable, not_cooling in Hsel. simpl in Hsel.
    apply andb_true_iff in Hsel. destruct Hsel as [Hsel Hexp].
    apply andb_true_iff in Hsel. destruct Hsel as [Hact Hcool].
    apply Z.ltb_lt in Hcool. split; [exact Hcool|].
    exists r. repeat split; assumption.
  - intros (Hlt & r & Hr & Hid & Hact & Hexp).
    exists (set_cooldown until r). split; [|exact Hid].
    unfold get_active_tokens.
    apply (Permutation_in _ (Permutation_sym (order_by_last_used_perm _))).
    apply filter_In. split.
    + unfold update_token_cooldown, update_where. apply in_map_iff.
      exists r. rewrite Hid. split; [reflexivity | exact Hr].
    + unfold selectable, not_cooling. simpl.
      rewrite Hact. simpl. apply andb_true_iff. split; [apply Z.ltb_lt; exact Hlt|].
      exact Hexp.
Qed.

End PoolFacts.

Lemma used_credential_goes_last_witness :
  Tok.get_active_tokens 100 (TokOps.update_token_usage 50 2 pool_of_five)
    = [credential 5 true None (Some 300) None; credential 1 true None None (Some 40)]
      ++ TokOps.set_usage 50 (credential 2 true (Some 90) None (Some 10)) :: [] /\
  Tok.last_used_at (TokOps.set_usage 50 (credential 2 true (Some 90) None (Some 10)))
    = Some 50.
Proof.
  split; [reflexivity|].
  exact (proj1 (@used_credential_goes_last 50 100 2 pool_of_five
                  [credential 5 true None (Some 300) None;
                   credential 1 true None None (Some 40)]
                  (TokOps.set_usage 50 (credential 2 true (Some 90) None (Some 10)))
                  [] eq_refl eq_refl)).
Defined.

Lemma deactivated_credential_is_never_selected_witness :
  In (credential 1 true None None (Some 40))
     (Tok.get_active_tokens 100 (TokOps.update_token_status 2 false pool_of_five)) /\
  Tok.has_id 2 (credential 1 true None None (Some 40)) = false.
Proof.
  assert (H : In (credential 1 true None None (Some 40))
                (Tok.get_active_tokens 100
                   (TokOps.update_token_status 2 false pool_of_five))).
  { right. left. reflexivity. }
  split; [exact H|].
  exact (@deactivated_credential_is_never_selected 100 2 pool_of_five _ (or_introl H)).
Defined.

(** ** Deleting credentials *)

Section DeleteFacts.

Import Db.

Lemma find_filter_negb_none {A} (p : A -> bool) (l : list A) :
  find p (filter (fun a => negb (p a)) l) = None.
Proof.
  induction l as [|a l IH]; simpl; [reflexivity|].
  destruct (p a) eqn:E; simpl; [exact IH | rewrite E; exact IH].
Qed.

Lemma filter_filter_negb_nil {A} (p : A -> bool) (l : list A) :
  filter p (filter (fun a => negb (p a)) l) = [].
Proof.
  induction l as [|a l IH]; simpl; [reflexivity|].
  destruct (p a) eqn:E; simpl; [exact IH | rewrite E; exact IH].
Qed.

Lemma find_filter_other {A} (p q : A -> bool) (l : list A) :
  (forall a, p a = true -> q a = true) ->
  find p (filter q l) = find p l.
Proof.
  intros Hpq. induction l as [|a l IH]; simpl; [reflexivity|].
  destruct (q a) eqn:Eq; simpl.
  - destruct (p a); [reflexivity | exact IH].
  - destruct (p a) eqn:Ep; [|exact IH].
    apply Hpq in Ep. congruence.
Qed.

Lemma filter_filter_other {A} (p q : A -> bool) (l : list A) :
  (forall a, p a = true -> q a = true) ->
  filter p (filter q l) = filter p l.
Proof.
  intros Hpq. induction l as [|a l IH]; simpl; [reflexivity|].
  destruct (q a) eqn:Eq; simpl.
  - destruct (p a); [f_equal|]; exact IH.
  - destruct (p a) eqn:Ep; [|exact IH].
    apply Hpq in Ep. congruence.
Qed.

Lemma filter_all {A} (p : A -> bool) (l : list A) :
  Forall (fun a => p a = true) l -> filter p l = l.
Proof.
  induction 1 as [|a l Ha _ IH]; simpl; [reflexivity|].
  rewrite Ha, IH. reflexivity.
Qed.

(** Once the two DELETEs of [delete_token] are carried out, the credential
    is not found any more and none of its stats rows is left; every other
    credential and its stats rows are as they were. *)
Theorem delete_token_removes_token_and_stats :
  forall (tid : Z) (s : store),
    Tok.get_token tid (tokens (fst (delete_token tid s))) = None /\
    stats_of tid (fst (delete_token tid s)) = [] /\
    (forall tid', tid' <> tid ->
       Tok.get_token tid' (tokens (fst (delete_token tid s)))
         = Tok.get_token tid' (tokens s) /\
       stats_of tid' (fst (delete_token tid s)) = stats_of tid' s).
Proof.
  intros tid s. unfold delete_token, transaction, stats_of. simpl.
  split; [apply find_filter_negb_none|].
  split; [apply (filter_filter_negb_nil (fun r => Stats.token_id r =? tid))|].
  intros tid' Hne. split.
  - apply find_filter_other. intros a Ha.
    destruct (Tok.has_id tid a) eqn:E; [|reflexivity].
    exfalso. apply Hne. eapply has_id_inj; eassumption.
  - apply filter_filter_other. intros a Ha.
    apply Z.eqb_eq in Ha. apply negb_true_iff, Z.eqb_neq. congruence.
Qed.

(** [add_token] followed by [delete_token] of the id it returned gives back
    the two tables as they were before (on a store whose ids were drawn from
    the sequence). *)
Theorem add_then_delete_restores_tables :
  forall (f : faults) (now : datetime) (tok : Tok.Token) (s : store) (s1 : store)
         (tid : Z),
    ids_below_seq s ->
    add_token f now tok s = (s1, Ok tid) ->
    tokens (fst (delete_token tid s1)) = tokens s /\
    token_stats (fst (delete_token tid s1)) = token_stats s.
Proof.
  intros f now tok s s1 tid Hinv Hadd.
  pose proof (fresh_token_id Hinv) as Hfresh.
  pose proof (fresh_stats_token_id Hinv) as Hfresh'.
  revert Hadd.
  unfold add_token, transaction, bind, insert_token, insert_stats, ret.
  destruct f as [[|] [|]]; simpl; intros [= <- <-].
  unfold delete_token, transaction. simpl.
  rewrite !filter_app. simpl.
  unfold Tok.has_id at 2. simpl. rewrite !Z.eqb_refl. simpl.
  rewrite !app_nil_r. split; apply filter_all.
  - eapply Forall_impl; [|exact Hfresh]. simpl. intros a ->. reflexivity.
  - eapply Forall_impl; [|exact Hfresh']. simpl. intros a ->. reflexivity.
Qed.

End DeleteFacts.

Lemma add_then_delete_restores_tables_witness :
  Db.ids_below_seq Db.empty /\
  Db.tokens (fst (Db.delete_token 1 (Db.mkStore
       [Db.new_token_row 1 50 (credential 0 true None None None)]
       [Stats.mkTokenStats (Some 1) 1 0 0 0 None 0 0 0 None 0] 2 2))) = [] /\
  Db.token_stats (fst (Db.delete_token 1 (Db.mkStore
       [Db.new_token_row 1 50 (credential 0 true None None None)]
       [Stats.mkTokenStats (Some 1) 1 0 0 0 None 0 0 0 None 0] 2 2))) = [].
Proof.
  split; [exact ids_below_seq_empty|].
  exact (@add_then_delete_restores_tables Db.no_faults 50
           (credential 0 true None None None) Db.empty _ 1
           ids_below_seq_empty eq_refl).
Defined.

(** ** More on the token statistics *)

Section StatsMoreFacts.

Import Stats StatsRuns.

Lemma update_where_no_row (tid : Z) (set : TokenStats -> TokenStats) (t : table) :
  fetchrow tid t = None -> update_where tid set t = t.
Proof.
  unfold fetchrow, update_where. induction t as [|r t IH]; simpl; [reflexivity|].
  destruct (token_id r =? tid); [discriminate|].
  intros H. rewrite IH by exact H. reflexivity.
Qed.

(** A token without a stats row: every stats operation on it leaves the
    table as it is; its images, videos and errors are not counted and nothing
    is raised. *)
Theorem stats_operation_without_row_is_lost :
  forall (o : stats_op) (t : table),
    get_token_stats (target_of o) t = None ->
    run_op o t = t /\ get_token_stats (target_of o) (run_op o t) = None.
Proof.
  intros o t Hnone. unfold get_token_stats in *.
  assert (H : run_op o t = t).
  { rewrite run_op_update_where. apply update_where_no_row. exact Hnone. }
  rewrite H. split; [reflexivity | exact Hnone].
Qed.

Lemma error_calls_count (tid : Z) (calls : list (date * datetime * bool)) :
  forall (t : table) (r : TokenStats),
    get_token_stats tid t = Some r ->
    exists r',
      get_token_stats tid (run_ops (error_calls tid calls) t) = Some r' /\
      consecutive_error_count r' = consecutive_error_count r + counted calls /\
      error_count r' = error_count r + Z.of_nat (List.length calls).
Proof.
  induction calls as [|[[d n] b] calls IH]; intros t r Hr.
  - exists r. unfold counted. simpl. repeat split; [exact Hr | lia | lia].
  - pose proof (get_stats_after_op (IncrementError d n tid b) t Hr) as H1.
    simpl target_of in H1.
    destruct (IH _ _ H1) as (r' & Hget & Hcons & Herr).
    exists r'. split; [exact Hget|].
    unfold counted in *. simpl filter. simpl List.length.
    rewrite Hcons, Herr. simpl clause_of.
    destruct (date_changed d (fetchrow tid t)), b; simpl; split; lia.
Qed.

(** After [reset_error_count], a run of [increment_error_count] calls leaves
    [consecutive_error_count] at the number of calls made with
    [increment_consecutive] true, and raises [error_count] by the number of
    all calls: rate-limited errors are in the total and not in the streak. *)
Theorem consecutive_errors_count_flagged_calls :
  forall (tid : Z) (calls : list (date * datetime * bool)) (t : table) (r : TokenStats),
    get_token_stats tid t = Some r ->
    exists r',
      get_token_stats tid (run_ops (ResetError tid :: error_calls tid calls) t)
        = Some r' /\
      consecutive_error_count r' = counted calls /\
      error_count r' = error_count r + Z.of_nat (List.length calls).
Proof.
  intros tid calls t r Hr.
  pose proof (get_stats_after_op (ResetError tid) t Hr) as H0. simpl in H0.
  destruct (error_calls_count tid calls _ H0) as (r' & Hget & Hcons & Herr).
  exists r'. split; [exact Hget|]. simpl in Hcons, Herr. split; [lia | exact Herr].
Qed.

End StatsMoreFacts.

Lemma stats_operation_without_row_is_lost_witness :
  Stats.get_token_stats 9 stats_day_100 = None /\
  Stats.run_op (Stats.IncrementError 101 5000 9 true) stats_day_100 = stats_day_100.
Proof.
  split; [reflexivity|].
  exact (proj1 (@stats_operation_without_row_is_lost
                  (Stats.IncrementError 101 5000 9 true) stats_day_100 eq_refl)).
Defined.

Lemma consecutive_errors_count_flagged_calls_witness :
  exists r',
    Stats.get_token_stats 7
      (Stats.run_ops
         (Stats.ResetError 7 ::
          StatsRuns.error_calls 7 [(100, 1, true); (100, 2, false); (101, 3, true)])
         stats_day_100) = Some r' /\
    Stats.consecutive_error_count r' = 2 /\
    Stats.error_count r' = 4 + 3.
Proof.
  exact (@consecutive_errors_count_flagged_calls 7
           [(100, 1, true); (100, 2, false); (101, 3, true)] stats_day_100
           (Stats.mkTokenStats (Some 1) 7 2 3 4 None 1 1 1 (Some 100) 2) eq_refl).
Defined.

(** ** More on tasks *)

Section TaskMoreFacts.

Import Tasks TaskOps.

Lemma get_task_app_fresh (tid : string) (t : table) (x : Task) :
  get_task tid t = None ->
  get_task tid (t ++ [x]) = if String.eqb (task_id x) tid then Some x else None.
Proof.
  unfold get_task. induction t as [|r t IH]; simpl; [reflexivity|].
  destruct (String.eqb (task_id r) tid); [discriminate | exact IH].
Qed.

Lemma get_task_app_other (tid : string) (t : table) (x : Task) :
  task_id x <> tid ->
  get_task tid (t ++ [x]) = get_task tid t.
Proof.
  intros Hne. unfold get_task. induction t as [|r t IH]; simpl.
  - apply String.eqb_neq in Hne. rewrite Hne. reflexivity.
  - destruct (String.eqb (task_id r) tid); [reflexivity | exact IH].
Qed.

(** A task created under an id not yet in the table is read back with the
    token, model, prompt, status and progress it was created with, no result,
    no error message and no completion time; the tasks of other ids read as
    before; and the first [update_task] on it is what is read next. *)
Theorem created_task_is_read_back :
  forall (new_id : Z) (created : option datetime) (task : Task) (t : table),
    get_task (task_id task) t = None ->
    (exists r,
       get_task (task_id task) (fst (create_task new_id created task t)) = Some r /\
       task_id r = task_id task /\ token_id r = token_id task /\
       model r = model task /\ prompt r = prompt task /\
       status r = status task /\ progress r = progress task /\
       result_urls r = None /\ error_message r = None /\ completed_at r = None) /\
    (forall tid', tid' <> task_id task ->
       get_task tid' (fst (create_task new_id created task t)) = get_task tid' t) /\
    (forall now st pr ru em,
       exists r,
         get_task (task_id task)
           (update_task now (task_id task) st pr ru em
              (fst (create_task new_id created task t))) = Some r /\
         status r = st /\ progress r = pr /\ result_urls r = ru /\
         model r = model task /\ prompt r = prompt task).
Proof.
  intros new_id created task t Hfresh. unfold create_task. simpl.
  assert (Hget : get_task (task_id task)
                   (t ++ [mkTask (Some new_id) (task_id task) (token_id task)
                            (model task) (prompt task) (status task) (progress task)
                            None None created None])
                 = Some (mkTask (Some new_id) (task_id task) (token_id task)
                           (model task) (prompt task) (status task) (progress task)
                           None None created None)).
  { rewrite get_task_app_fresh by exact Hfresh. simpl.
    rewrite String.eqb_refl. reflexivity. }
  split; [eexists; split; [exact Hget | repeat split]|].
  split.
  - intros tid' Hne. apply get_task_app_other. simpl. congruence.
  - intros now st pr ru em. rewrite get_task_update_same, Hget. simpl.
    eexists. split; [reflexivity | repeat split].
Qed.

Lemma set_task_supersedes (n1 n2 : datetime) (s1 s2 : string) (p1 p2 : Q)
    (r1 r2 e1 e2 : option string) (r : Task) :
  set_task n2 s2 p2 r2 e2 (set_task n1 s1 p1 r1 e1 r) = set_task n2 s2 p2 r2 e2 r.
Proof. reflexivity. Qed.

(** A later [update_task] on a task supersedes an earlier one completely:
    the table is the one the later call alone would have left.  Nothing of
    the earlier call survives, a stored result included when the later call
    passes no [result_urls]. *)
Theorem later_update_task_supersedes :
  forall (n1 n2 : datetime) (tid s1 s2 : string) (p1 p2 : Q)
         (r1 r2 e1 e2 : option string) (t : table),
    update_task n2 tid s2 p2 r2 e2 (update_task n1 tid s1 p1 r1 e1 t)
    = update_task n2 tid s2 p2 r2 e2 t.
Proof.
  intros. unfold update_task. rewrite map_map. apply map_ext. intros r.
  destruct (String.eqb (task_id r) tid) eqn:E.
  - simpl. rewrite E. reflexivity.
  - rewrite E. reflexivity.
Qed.

(** [update_task] on an id that no task has changes nothing: no row is
    created and nothing is raised, so the update is lost. *)
Theorem update_task_unknown_id_is_lost :
  forall (now : datetime) (tid st : string) (pr : Q) (ru em : option string)
         (t : table),
    get_task tid t = None ->
    update_task now tid st pr ru em t = t /\
    get_task tid (update_task now tid st pr ru em t) = None.
Proof.
  intros now tid st pr ru em t Hnone.
  assert (H : update_task now tid st pr ru em t = t).
  { unfold get_task, update_task in *. induction t as [|r t IH]; simpl; [reflexivity|].
    simpl in Hnone. destruct (String.eqb (task_id r) tid); [discriminate|].
    rewrite IH by exact Hnone. reflexivity. }
  rewrite H. split; [reflexivity | exact Hnone].
Qed.

End TaskMoreFacts.

Lemma created_task_is_read_back_witness :
  Tasks.get_task "task_2" task_in_progress = None /\
  exists r,
    Tasks.get_task "task_2"
      (fst (TaskOps.create_task 2 (Some 5)
              (Tasks.mkTask None "task_2" 1 "gpt-image" "a red fox" "processing" 0
                 None None None None)
              task_in_progress)) = Some r /\
    Tasks.status r = "processing" /\ Tasks.prompt r = "a red fox".
Proof.
  split; [reflexivity|].
  destruct (proj1 (@created_task_is_read_back 2 (Some 5)
                     (Tasks.mkTask None "task_2" 1 "gpt-image" "a red fox"
                        "processing" 0 None None None None)
                     task_in_progress eq_refl))
    as (r & Hget & _ & _ & _ & Hprompt & Hstatus & _).
  exists r. split; [exact Hget|]. split; [exact Hstatus | exact Hprompt].
Defined.

Lemma update_task_unknown_id_is_lost_witness :
  Tasks.get_task "nope" task_in_progress = None /\
  Tasks.update_task 10 "nope" "failed" 0 None (Some "timeout") task_in_progress
    = task_in_progress.
Proof.
  split; [reflexivity|].
  exact (proj1 (@update_task_unknown_id_is_lost 10 "nope" "failed" 0%Q None
                  (Some "timeout") task_in_progress eq_refl)).
Defined.

(** ** The dynamic UPDATE statements *)

Section BuilderFacts.

Import Sql.

Variable column : Type.
Variable row : Type.
Variable set_column : column -> value -> row -> row.
Variable set_now : column -> datetime -> row -> row.
Variable matches : value -> row -> bool.

Lemma fold_given (args : list (column * option value)) (b : builder column) :
  fold_left (fun b ca => given (fst ca) (snd ca) b) args b
  = mkBuilder (updates b ++ emitted_updates args (param_num b))
              (params b ++ emitted_params args)
              (param_num b + List.length (emitted_params args)).
Proof.
  revert b. induction args as [|[c [v|]] args IH]; intros b; simpl.
  - rewrite !app_nil_r, Nat.add_0_r. destruct b; reflexivity.
  - rewrite IH. simpl. rewrite <- !app_assoc. simpl.
    rewrite Nat.add_succ_r. reflexivity.
  - apply IH.
Qed.

Lemma build_emits (args : list (column * option value)) :
  build args
  = mkBuilder (emitted_updates args 1) (emitted_params args)
              (S (List.length (emitted_params args))).
Proof. unfold build. rewrite fold_given. reflexivity. Qed.

(** Each placeholder is bound to the value appended with it. *)
Lemma assign_emitted (args : list (column * option value)) :
  forall (pre tail : list value) (now : datetime) (r : row),
    fold_left (assign set_column set_now (pre ++ emitted_params args ++ tail) now)
      (emitted_updates args (S (List.length pre))) r
    = fold_left (set_given set_column) args r.
Proof.
  induction args as [|[c [v|]] args IH]; intros pre tail now r; simpl.
  - reflexivity.
  - unfold assign at 2. simpl.
    rewrite nth_error_app2 by apply Nat.le_refl. rewrite Nat.sub_diag. simpl.
    unfold set_given at 2. simpl.
    specialize (IH (pre ++ [v]) tail now (set_column c v r)).
    rewrite <- app_assoc in IH. simpl in IH.
    rewrite length_app in IH. simpl in IH. rewrite Nat.add_1_r in IH.
    exact IH.
  - unfold set_given at 2. simpl. apply IH.
Qed.

Lemma nothing_emitted (args : list (column * option value)) (n : nat) (r : row) :
  emitted_updates args n = [] ->
  fold_left (set_given set_column) args r = r.
Proof.
  revert n. induction args as [|[c [v|]] args IH]; intros n; simpl.
  - reflexivity.
  - discriminate.
  - apply IH.
Qed.

(** The statement built from [args], run with the key appended to [params]
    and followed by the assignments [stamps] of [CURRENT_TIMESTAMP], sets on
    every row the WHERE clause selects each column whose argument was given
    to that argument, and then the time stamps. *)
Lemma execute_built (args : list (column * option value)) (stamps : list column)
    (key : value) (now : datetime) (t : list row) :
  execute set_column set_now matches
    (updates (build args) ++ map (fun c => (c, CurrentTimestamp)) stamps)
    (param_num (build args)) (params (build args) ++ [key]) now t
  = map (fun r =>
           if matches key r
           then fold_left (fun r c => set_now c now r) stamps
                  (fold_left (set_given set_column) args r)
           else r) t.
Proof.
  rewrite build_emits. unfold execute. simpl.
  rewrite nth_error_app2 by apply Nat.le_refl. rewrite Nat.sub_diag. simpl.
  apply map_ext. intros r. destruct (matches key r); [|reflexivity].
  rewrite fold_left_app.
  pose proof (assign_emitted args [] [key] now r) as Ha. simpl in Ha.
  rewrite Ha. clear Ha.
  generalize (fold_left (set_given set_column) args r). clear.
  induction stamps as [|c stamps IH]; intros r; simpl; [reflexivity | apply IH].
Qed.

End BuilderFacts.

Section TokenUpdateFacts.

Import Tok Sql TokenUpdate.

Lemma first_seven (o1 : option string) (o2 o3 o4 o5 o6 : option string)
    (o7 : option datetime) (r : Token) :
  fold_left (set_given set_column)
    [(c_token, option_map VStr o1); (c_st, option_map VStr o2);
     (c_rt, option_map VStr o3); (c_client_id, option_map VStr o4);
     (c_proxy_url, option_map VStr o5); (c_remark, option_map VStr o6);
     (c_expiry_time, option_map VTime o7)] r
  = with_columns r (or_old o1 (token r)) (or_old_opt o2 (st r))
      (or_old_opt o3 (rt r)) (or_old_opt o4 (client_id r))
      (or_old_opt o5 (proxy_url r)) (or_old_opt o6 (remark r))
      (or_old_opt o7 (expiry_time r)) (plan_type r) (plan_title r)
      (subscription_end r) (image_enabled r) (video_enabled r)
      (image_concurrency r) (video_concurrency r).
Proof.
  destruct r, o1, o2, o3, o4, o5, o6, o7; reflexivity.
Qed.

Lemma last_seven (o8 o9 : option string) (o10 : option datetime)
    (o11 o12 : option bool) (o13 o14 : option Z) (r : Token) :
  fold_left (set_given set_column)
    [(c_plan_type, option_map VStr o8); (c_plan_title, option_map VStr o9);
     (c_subscription_end, option_map VTime o10);
     (c_image_enabled, option_map VBool o11);
     (c_video_enabled, option_map VBool o12);
     (c_image_concurrency, option_map VInt o13);
     (c_video_concurrency, option_map VInt o14)] r
  = with_columns r (token r) (st r) (rt r) (client_id r) (proxy_url r) (remark r)
      (expiry_time r) (or_old_opt o8 (plan_type r)) (or_old_opt o9 (plan_title r))
      (or_old_opt o10 (subscription_end r)) (or_old o11 (image_enabled r))
      (or_old o12 (video_enabled r)) (or_old o13 (image_concurrency r))
      (or_old o14 (video_concurrency r)).
Proof.
  destruct r, o8, o9, o10, o11, o12, o13, o14; reflexivity.
Qed.

Lemma with_arguments_replaced a r : with_arguments a r = replaced a r.
Proof.
  unfold with_arguments, in_order.
  change (fold_left (set_given set_column)
            ([(c_token, option_map VStr (a_token a)); (c_st, option_map VStr (a_st a));
              (c_rt, option_map VStr (a_rt a));
              (c_client_id, option_map VStr (a_client_id a));
              (c_proxy_url, option_map VStr (a_proxy_url a));
              (c_remark, option_map VStr (a_remark a));
              (c_expiry_time, option_map VTime (a_expiry_time a))] ++
             [(c_plan_type, option_map VStr (a_plan_type a));
              (c_plan_title, option_map VStr (a_plan_title a));
              (c_subscription_end, option_map VTime (a_subscription_end a));
              (c_image_enabled, option_map VBool (a_image_enabled a));
              (c_video_enabled, option_map VBool (a_video_enabled a));
              (c_image_concurrency, option_map VInt (a_image_concurrency a));
              (c_video_concurrency, option_map VInt (a_video_concurrency a))]) r
          = replaced a r).
  rewrite fold_left_app, first_seven, last_seven. destruct r. reflexivity.
Qed.

(** [update_token] runs the statement it builds with every placeholder bound
    to the argument it was numbered for: on the rows of the token each column
    whose argument is given takes that argument, the other columns and the
    other rows stay; when no argument is given no statement is run. *)
Theorem update_token_sets_given_columns :
  forall (now : datetime) (tid : Z) (a : arguments) (t : table),
    update_token now tid a t = Tok.update_where tid (replaced a) t /\
    update_token now tid none_given t = t.
Proof.
  intros now tid a t. split; [|reflexivity].
  replace (Tok.update_where tid (replaced a) t)
    with (Tok.update_where tid (with_arguments a) t)
    by (unfold Tok.update_where; apply map_ext; intros r;
        rewrite with_arguments_replaced; reflexivity).
  unfold update_token.
  destruct (updates (build (in_order a))) as [|u us] eqn:E.
  - rewrite build_emits in E. simpl in E.
    unfold Tok.update_where, with_arguments.
    symmetry. rewrite <- (map_id t) at 2. apply map_ext. intros r.
    rewrite (nothing_emitted set_column (in_order a) 1 r E).
    destruct (has_id tid r); reflexivity.
  - rewrite <- E.
    pose proof (execute_built set_column set_now matches (in_order a) []
                  (VInt tid) now t) as H.
    simpl in H. rewrite app_nil_r in H. rewrite H. reflexivity.
Qed.

End TokenUpdateFacts.

(** Two of fourteen arguments given: the placeholders are [$1] and [$2], the
    key is [$3]. *)
Example update_token_two_arguments :
  Sql.build (TokenUpdate.in_order
    (TokenUpdate.mkArguments None None (Some "rt_new") None None None None None None
       None None (Some false) None None))
  = Sql.mkBuilder
      [(TokenUpdate.c_rt, Sql.Placeholder 1);
       (TokenUpdate.c_video_enabled, Sql.Placeholder 2)]
      [Sql.VStr "rt_new"; Sql.VBool false] 3.
Proof. reflexivity. Qed.

Example update_token_on_pool :
  Tok.get_token 2
    (TokenUpdate.update_token 0 2
       (TokenUpdate.mkArguments None None (Some "rt_new") None None None None None None
          None None (Some false) None None)
       pool_of_five)
  = Some (Tok.mkToken (Some 2) "at" "user@example.com" None None (Some "rt_new")
            None None None None true (Some 90) (Some 0) (Some 10) 0
            None None None None None 0 0 0 None true false (-1) (-1) false).
Proof. reflexivity. Qed.

Section LogFacts.

Import Sql Logs.

Lemma emitted_none_iff {column : Type} (args : list (column * option value)) (n : nat) :
  emitted_updates args n = [] <-> all_omitted args = true.
Proof.
  revert n. induction args as [|[c [v|]] args IH]; intros n; simpl.
  - split; reflexivity.
  - split; discriminate.
  - apply IH.
Qed.

Lemma log_fold_completed (now : datetime) (a : arguments) (r : RequestLog) :
  set_now c_updated_at now (fold_left (set_given set_column) (in_order a) r)
  = completed now a r.
Proof.
  destruct r, a as [[?|] [?|] [?|] [?|] [?|]]; reflexivity.
Qed.

(** [update_request_log]: with at least one argument given, the log row of
    that id takes each given argument in its column and [updated_at] is set to
    the time of the call, the other rows stay; with no argument given no
    statement is run and [updated_at] is not touched. *)
Theorem update_request_log_completes_row :
  forall (now : datetime) (log_id : Z) (a : arguments) (t : table),
    update_request_log now log_id a t
    = if anything_given a
      then map (fun r => if has_id (VInt log_id) r then completed now a r else r) t
      else t.
Proof.
  intros now log_id a t. unfold update_request_log, anything_given.
  destruct (updates (build (in_order a))) as [|u us] eqn:E.
  - rewrite build_emits in E. cbn [updates] in E. apply emitted_none_iff in E.
    rewrite E. reflexivity.
  - assert (Hg : all_omitted (in_order a) = false).
    { destruct (all_omitted (in_order a)) eqn:Ho; [|reflexivity].
      apply (emitted_none_iff (in_order a) 1) in Ho.
      rewrite build_emits in E. cbn [updates] in E. congruence. }
    rewrite Hg. simpl negb. cbv iota. rewrite <- E.
    pose proof (execute_built set_column set_now has_id (in_order a)
                  [c_updated_at] (VInt log_id) now t) as H.
    change (map (fun c => (c, CurrentTimestamp)) [c_updated_at])
      with [(c_updated_at, CurrentTimestamp)] in H.
    rewrite H. apply map_ext. intros r.
    destruct (has_id (VInt log_id) r); [|reflexivity].
    apply log_fold_completed.
Qed.

Lemma log_fold_completed_by_task (now : datetime) (rb : option string)
    (sc : option Z) (du : option Q) (r : RequestLog) :
  set_now c_updated_at now
    (fold_left (set_given set_column) (in_order_by_task rb sc du) r)
  = completed now (mkArguments rb sc du None None) r.
Proof.
  destruct r, rb, sc, du; reflexivity.
Qed.

(** [update_request_log_by_task_id]: every log row linked to the task is
    completed in the same way (response body, status code and duration, each
    when given, and [updated_at]); rows of other tasks and rows with no task
    stay; with no argument given no statement is run. *)
Theorem update_request_log_by_task_id_completes_rows :
  forall (now : datetime) (task : string)
         (response_body : option string) (status_code : option Z)
         (duration : option Q) (t : table),
    update_request_log_by_task_id now task response_body status_code duration t
    = if anything_given (mkArguments response_body status_code duration None None)
      then map (fun r =>
                  if opt_eqb String.eqb (task_id r) (Some task)
                  then completed now
                         (mkArguments response_body status_code duration None None) r
                  else r) t
      else t.
Proof.
  intros now task rb sc du t. unfold update_request_log_by_task_id.
  destruct rb as [rb|], sc as [sc|], du as [du|];
    try reflexivity;
    (apply map_ext; intros r; unfold has_task_id;
     destruct (opt_eqb String.eqb (task_id r) (Some task)); [|reflexivity];
     destruct r; reflexivity).
Qed.

End LogFacts.

(** ** Admin sessions *)

Section SessionFacts.

Import AdminSessions.

Lemma created_rows_of_token (now : datetime) (created last_used : option datetime)
    (tok : string) (exp : option datetime) (t : table) (r : session) :
  In r (create_admin_session now created last_used tok exp t) ->
  has_token tok r = true -> expires_at r = exp.
Proof.
  unfold create_admin_session. destruct (existsb (has_token tok) t) eqn:E.
  - intros Hin Htok. apply in_map_iff in Hin. destruct Hin as (x & <- & Hx).
    destruct (has_token tok x) eqn:Ex; [reflexivity|].
    rewrite Ex in Htok. discriminate.
  - intros Hin Htok. apply in_app_or in Hin. destruct Hin as [Hin|[<-|[]]].
    + assert (Hx : existsb (has_token tok) t = true)
        by (apply existsb_exists; eauto).
      congruence.
    + reflexivity.
Qed.

Lemma created_row_exists (now : datetime) (created last_used : option datetime)
    (tok : string) (exp : option datetime) (t : table) :
  exists r, In r (create_admin_session now created last_used tok exp t) /\
            has_token tok r = true.
Proof.
  unfold create_admin_session. destruct (existsb (has_token tok) t) eqn:E.
  - apply existsb_exists in E. destruct E as (x & Hx & Htok).
    exists (mkSession (token x) exp (created_at x) (Some now)). split.
    + apply in_map_iff. exists x. rewrite Htok. split; [reflexivity | exact Hx].
    + exact Htok.
  - exists (mkSession tok exp created last_used). split.
    + apply in_or_app. right. left. reflexivity.
    + unfold has_token. simpl. apply String.eqb_refl.
Qed.

(** After [create_admin_session], [get_admin_session] finds a session of the
    token exactly while the expiry time given is none or still ahead, and the
    session found carries that expiry time, whether the token had a session
    before or not. *)
Theorem created_session_is_found_while_live :
  forall (now now' : datetime) (created last_used : option datetime)
         (tok : string) (exp : option datetime) (t : table),
    (forall r,
       get_admin_session now' tok
         (create_admin_session now created last_used tok exp t) = Some r ->
       token r = tok /\ expires_at r = exp) /\
    ((exists r,
        get_admin_session now' tok
          (create_admin_session now created last_used tok exp t) = Some r)
     <-> (exp = None \/ exists e, exp = Some e /\ now' < e)).
Proof.
  intros now now' created last_used tok exp t.
  assert (Hfound : forall r,
            get_admin_session now' tok
              (create_admin_session now created last_used tok exp t) = Some r ->
            token r = tok /\ expires_at r = exp /\ live now' r = true).
  { intros r Hr. unfold get_admin_session in Hr. apply find_some in Hr.
    destruct Hr as [Hin Hp]. apply andb_true_iff in Hp. destruct Hp as [Htok Hlive].
    split; [apply String.eqb_eq; exact Htok|].
    split; [eapply created_rows_of_token; eassumption | exact Hlive]. }
  split.
  - intros r Hr. destruct (Hfound r Hr) as (H1 & H2 & _). auto.
  - split.
    + intros (r & Hr). destruct (Hfound r Hr) as (_ & Hexp & Hlive).
      unfold live in Hlive. rewrite Hexp in Hlive.
      destruct exp as [e|]; [right | left; reflexivity].
      exists e. split; [reflexivity | apply Z.ltb_lt; exact Hlive].
    + intros Hvalid.
      destruct (get_admin_session now' tok
                  (create_admin_session now created last_used tok exp t)) as [r|] eqn:E;
        [eauto|].
      exfalso. unfold get_admin_session in E.
      destruct (created_row_exists now created last_used tok exp t) as (x & Hx & Htok).
      pose proof (find_none _ _ E x Hx) as Hp. simpl in Hp.
      rewrite Htok in Hp. simpl in Hp.
      pose proof (created_rows_of_token _ _ _ _ _ _ _ Hx Htok) as Hexp.
      unfold live in Hp. rewrite Hexp in Hp.
      destruct Hvalid as [->|(e & -> & Hlt)]; [discriminate|].
      apply Z.ltb_lt in Hlt. congruence.
Qed.

(** [cleanup_expired_admin_sessions] deletes only sessions that
    [get_admin_session] no longer returns: at the time of the cleanup and at
    any later time, every token reads the same with and without it. *)
Theorem cleanup_hides_no_session :
  forall (now now' : datetime) (tok : string) (t : table),
    now <= now' ->
    get_admin_session now' tok (cleanup_expired_admin_sessions now t)
    = get_admin_session now' tok t.
Proof.
  intros now now' tok t Hle. unfold get_admin_session, cleanup_expired_admin_sessions.
  apply find_filter_other. intros a Ha.
  apply andb_true_iff in Ha. destruct Ha as [_ Hlive].
  unfold live in Hlive. unfold lapsed.
  destruct (expires_at a) as [e|]; [|reflexivity].
  apply Z.ltb_lt in Hlive. apply negb_true_iff, Z.ltb_ge. lia.
Qed.

(** [create_admin_session] keeps one row per token (an existing session is
    updated in place), and after [delete_admin_session] the token has no
    session at any time. *)
Theorem sessions_keep_one_row_per_token :
  forall (now : datetime) (created last_used : option datetime)
         (tok : string) (exp : option datetime) (t : table),
    NoDup (map token t) ->
    NoDup (map token (create_admin_session now created last_used tok exp t)) /\
    (forall now',
       get_admin_session now' tok
         (delete_admin_session tok
            (create_admin_session now created last_used tok exp t)) = None).
Proof.
  intros now created last_used tok exp t Hnd. split.
  - unfold create_admin_session. destruct (existsb (has_token tok) t) eqn:E.
    + rewrite map_map.
      replace (map (fun x => token (if has_token tok x
                                    then mkSession (token x) exp (created_at x) (Some now)
                                    else x)) t)
        with (map token t); [exact Hnd|].
      apply map_ext. intros a. destruct (has_token tok a); reflexivity.
    + rewrite map_app. simpl.
      apply NoDup_app_remove_l with (l := []). simpl.
      apply Permutation_NoDup with (l := tok :: map token t).
      * apply Permutation_cons_append.
      * constructor; [|exact Hnd].
        intros Hin. apply in_map_iff in Hin. destruct Hin as (x & Hx & Hin).
        assert (Hex : existsb (has_token tok) t = true).
        { apply existsb_exists. exists x. split; [exact Hin|].
          unfold has_token. apply String.eqb_eq. exact Hx. }
        congruence.
  - intros now'. unfold get_admin_session, delete_admin_session.
    generalize (create_admin_session now created last_used tok exp t). intros l.
    induction l as [|a l IH]; simpl; [reflexivity|].
    destruct (has_token tok a) eqn:Ea; simpl; [exact IH|].
    rewrite Ea. simpl. exact IH.
Qed.

End SessionFacts.

(** Sessions: one without expiry, one expiring at 100. *)
Lemma cleanup_hides_no_session_witness :
  AdminSessions.get_admin_session 120 "s2"
    (AdminSessions.cleanup_expired_admin_sessions 110
       [AdminSessions.mkSession "s1" None (Some 0) None;
        AdminSessions.mkSession "s2" (Some 100) (Some 0) None])
  = AdminSessions.get_admin_session 120 "s2"
      [AdminSessions.mkSession "s1" None (Some 0) None;
       AdminSessions.mkSession "s2" (Some 100) (Some 0) None].
Proof.
  apply (@cleanup_hides_no_session 110 120). lia.
Defined.

Lemma sessions_keep_one_row_per_token_witness :
  NoDup (map AdminSessions.token
           (AdminSessions.create_admin_session 50 (Some 50) None "s2" (Some 200)
              [AdminSessions.mkSession "s1" None (Some 0) None;
               AdminSessions.mkSession "s2" (Some 100) (Some 0) None])).
Proof.
  refine (proj1 (@sessions_keep_one_row_per_token 50 (Some 50) None "s2" (Some 200)
                   [AdminSessions.mkSession "s1" None (Some 0) None;
                    AdminSessions.mkSession "s2" (Some 100) (Some 0) None] _)).
  simpl. constructor.
  - simpl. intros [H|[]]. discriminate H.
  - constructor; [simpl; tauto | constructor].
Defined.

(** A session that expires exactly at the time of the query is not returned,
    and a cleanup at that time does not delete it. *)
Example session_expiring_now :
  AdminSessions.get_admin_session 100 "s2"
    [AdminSessions.mkSession "s2" (Some 100) (Some 0) None] = None /\
  AdminSessions.cleanup_expired_admin_sessions 100
    [AdminSessions.mkSession "s2" (Some 100) (Some 0) None]
  = [AdminSessions.mkSession "s2" (Some 100) (Some 0) None].
Proof. split; reflexivity. Qed.

(** ** Configuration rows *)

Section ConfigFacts.

Import Config.



(** [update_watermark_free_config]: called with [enabled] only, it leaves the
    parse method, URL and token as stored; called with any of the three, it
    writes all three from the arguments: the URL and the token as given, so
    an omitted one is erased, and the parse method as given when it is a
    non-empty string, [third_party] when it is omitted or empty. *)
Theorem update_watermark_free_config_is_all_or_nothing :
  forall (now : datetime) (enabled : bool) (method url tok : option string)
         (current : WatermarkFreeConfig),
    exists r,
      update_watermark_free_config now enabled method url tok (Some current) = Some r /\
      watermark_free_enabled r = enabled /\
      watermark_updated_at r = Some now /\
      (method = None /\ url = None /\ tok = None ->
         parse_method r = parse_method current /\
         custom_parse_url r = custom_parse_url current /\
         custom_parse_token r = custom_parse_token current) /\
      (method <> None \/ url <> None \/ tok <> None ->
         custom_parse_url r = url /\
         custom_parse_token r = tok /\
         parse_method r <> EmptyString /\
         (forall given, method = Some given -> given <> EmptyString ->
            parse_method r = given) /\
         (method = Some EmptyString -> parse_method r = "third_party") /\
         (method = None -> parse_method r = "third_party")).
Proof.
  intros now enabled method url tok current.
  destruct method as [[|c m]|], url as [u|], tok as [k|];
    (eexists; split; [reflexivity|]; simpl;
     split; [reflexivity|]; split; [reflexivity|]; split;
     [ intros (H1 & H2 & H3); try discriminate; repeat split
     | intros H;
       first
         [ solve [exfalso; destruct H as [H|[H|H]]; apply H; reflexivity]
         | split; [reflexivity|]; split; [reflexivity|];
           split; [discriminate|]; split;
           [ intros given Hg Hne; try discriminate Hg;
             injection Hg as <-; first [reflexivity | exfalso; apply Hne; reflexivity]
           | split; intros Hm; first [reflexivity | discriminate Hm] ] ] ]).
Qed.
End ConfigFacts.

(** ** [generate_image] and [create_chat_completion] *)

Section EndpointFacts.

Import Json Routes Endpoints.

Variable json_loads : string -> option json.
Variable json_dumps : json -> string.
Variable MODEL_CONFIG : list (string * string).
Variable http_exception_text : Z -> string -> string.
Variable decode_error_text : string -> string.

Lemma last_chunk_app (earlier : list string) (final : string) :
  last_chunk (earlier ++ [final]) = Some final.
Proof. unfold last_chunk. rewrite fold_left_app. reflexivity. Qed.

(** [generate_image] refuses a model that is not in [MODEL_CONFIG], or is
    there with another type than [image], with an HTTP 400 that it raises
    before any call on the generation handler. *)
Theorem generate_image_validates_the_model :
  forall (api : GenerationApi) (request : ImageGenerateRequest),
    model_type MODEL_CONFIG (i_model request) <> Some "image" ->
    exists text,
      generate_image json_loads json_dumps MODEL_CONFIG decode_error_text
        (Some api) request
      = (Raises (HTTPException 400 (Detail text)), []) /\
      (text = ("Invalid model: " ++ i_model request)%string \/
       text = ("Model " ++ i_model request ++ " is not an image model")%string).
Proof.
  intros api request Hty. unfold generate_image.
  destruct (model_type MODEL_CONFIG (i_model request)) as [ty|] eqn:E;
    [|eexists; split; [reflexivity | left; reflexivity]].
  destruct (String.eqb ty "image") eqn:Ei; simpl;
    [|eexists; split; [reflexivity | right; reflexivity]].
  apply String.eqb_eq in Ei. subst ty. contradiction.
Qed.

(** Without [stream] and [async_mode], [generate_image] answers with the
    JSON of the last chunk the generator yields, whatever it yielded before;
    a generator that yields nothing, or an empty last chunk, gives HTTP 500
    [Generation failed]. *)
Theorem generate_image_answers_with_the_last_chunk :
  forall (api : GenerationApi) (request : ImageGenerateRequest)
         (yielded : list string),
    model_type MODEL_CONFIG (i_model request) = Some "image" ->
    i_async_mode request = false ->
    i_stream request = false ->
    handle_generation api
      (mkGenerationArgs (i_model request) (i_prompt request) None None None false)
      = mkGeneration yielded Finishes ->
    (forall earlier c rest content,
       yielded = earlier ++ [String c rest] ->
       json_loads (String c rest) = Some content ->
       fst (generate_image json_loads json_dumps MODEL_CONFIG decode_error_text
              (Some api) request)
       = Returns (JSONResponse 200 content)) /\
    (yielded = [] \/ (exists earlier, yielded = earlier ++ [EmptyString]) ->
       fst (generate_image json_loads json_dumps MODEL_CONFIG decode_error_text
              (Some api) request)
       = Returns (JSONResponse 500 (server_error "Generation failed"))).
Proof.
  intros api request yielded Hty Hasync Hstream Hgen.
  unfold generate_image. rewrite Hty, Hasync, Hstream. simpl.
  rewrite Hgen. unfold answer_once, run_to_end. simpl. split.
  - intros earlier c rest content -> Hjson.
    rewrite last_chunk_app. simpl. rewrite Hjson. reflexivity.
  - intros [->|(earlier & ->)]; [reflexivity|].
    rewrite last_chunk_app. reflexivity.
Qed.

(** [create_chat_completion] never raises and never answers with a client
    error: its JSON answers have status 200 or 500, and a streaming answer is
    given only when [stream] is set.  An empty [messages] list and an unknown
    model are answered with HTTP 500 [server_error], without a call on the
    generation handler. *)
Theorem create_chat_completion_never_answers_400 :
  forall (h : option GenerationApi) (request : ChatCompletionRequest),
    match fst (create_chat_completion json_loads json_dumps MODEL_CONFIG
                 http_exception_text decode_error_text h request) with
    | JSONResponse status_code _ => status_code = 200 \/ status_code = 500
    | StreamingResponse _ => c_stream request = true
    end /\
    (c_messages request = [] \/ model_type MODEL_CONFIG (c_model request) = None ->
     exists text,
       create_chat_completion json_loads json_dumps MODEL_CONFIG
         http_exception_text decode_error_text h request
       = (JSONResponse 500 (server_error text), [])).
Proof.
  intros h request.
  assert (Hans : forall failure g,
            match answer_once json_loads decode_error_text failure g with
            | JSONResponse status_code _ => status_code = 200 \/ status_code = 500
            | StreamingResponse _ => c_stream request = true
            end).
  { intros failure g. unfold answer_once, run_to_end, respond.
    destruct (ends g); [|right; reflexivity].
    destruct (last_chunk (chunks g)) as [[|c rest]|]; try (right; reflexivity).
    destruct (json_loads (String c rest)); [left | right]; reflexivity. }
  unfold create_chat_completion, rejected. split.
  - destruct h as [api|]; [|right; reflexivity].
    destruct (rev (c_messages request)) as [|content rest]; [right; reflexivity|].
    destruct (model_type MODEL_CONFIG (c_model request)) as [ty|];
      [|right; reflexivity].
    simpl.
    match goal with
    | |- context [if ?b then _ else _] => destruct b
    end; simpl; [apply Hans|].
    destruct (c_stream request); simpl; [reflexivity | apply Hans].
  - intros Hbad. destruct h as [api|]; [|eexists; reflexivity].
    destruct Hbad as [Hm|Hm].
    + rewrite Hm. simpl. eexists; reflexivity.
    + destruct (rev (c_messages request)); [eexists; reflexivity|].
      rewrite Hm. eexists; reflexivity.
Qed.

End EndpointFacts.

Lemma generate_image_validates_the_model_witness :
  exists text,
    Endpoints.generate_image SampleApi.loads Sample.dumps Sample.MODEL_CONFIG
      SampleApi.decode_error_text (Some SampleApi.api)
      (Endpoints.mkImageGenerateRequest "a red fox" "sora2-landscape-10s" false false)
    = (Routes.Raises (Routes.HTTPException 400 (Routes.Detail text)), []) /\
    (text = "Invalid model: sora2-landscape-10s" \/
     text = "Model sora2-landscape-10s is not an image model").
Proof.
  refine (@generate_image_validates_the_model SampleApi.loads Sample.dumps
            Sample.MODEL_CONFIG SampleApi.decode_error_text SampleApi.api
            (Endpoints.mkImageGenerateRequest "a red fox" "sora2-landscape-10s"
               false false) _).
  simpl. intros H. discriminate H.
Defined.

Lemma generate_image_answers_with_the_last_chunk_witness :
  fst (Endpoints.generate_image SampleApi.loads Sample.dumps Sample.MODEL_CONFIG
         SampleApi.decode_error_text (Some SampleApi.api)
         (Endpoints.mkImageGenerateRequest "a red fox" "gpt-image" false false))
  = Routes.Returns (Routes.JSONResponse 200 (Json.JObj [])).
Proof.
  exact (proj1 (@generate_image_answers_with_the_last_chunk SampleApi.loads
                  Sample.dumps Sample.MODEL_CONFIG SampleApi.decode_error_text
                  SampleApi.api
                  (Endpoints.mkImageGenerateRequest "a red fox" "gpt-image" false false)
                  [Routes.sse "progress"; "{}"] eq_refl eq_refl eq_refl eq_refl)
           [Routes.sse "progress"] "{"%char "}" (Json.JObj []) eq_refl eq_refl).
Defined.

(** The same unknown model: a 400 from [generate_image], a 500 from
    [create_chat_completion]. *)
Example unknown_model_two_answers :
  fst (Endpoints.generate_image SampleApi.loads Sample.dumps Sample.MODEL_CONFIG
         SampleApi.decode_error_text (Some SampleApi.api)
         (Endpoints.mkImageGenerateRequest "a red fox" "dall-e" false false))
  = Routes.Raises (Routes.HTTPException 400 (Routes.Detail "Invalid model: dall-e")) /\
  fst (Endpoints.create_chat_completion SampleApi.loads Sample.dumps Sample.MODEL_CONFIG
         SampleApi.http_exception_text SampleApi.decode_error_text (Some SampleApi.api)
         (Endpoints.mkChatCompletionRequest "dall-e" [Routes.ContentStr "a red fox"]
            None None None false))
  = Routes.JSONResponse 500 (Routes.server_error "400: Invalid model: dall-e").
Proof. split; reflexivity. Qed.

(** ** Data URIs *)

Section DataUriFacts.

Import Str Routes.

Lemma prefix_nil (x : string) : String.prefix EmptyString x = true.
Proof. destruct x; reflexivity. Qed.

Lemma append_assoc (a b c : string) : ((a ++ b) ++ c = a ++ b ++ c)%string.
Proof. induction a as [|x a IH]; simpl; [reflexivity | rewrite IH; reflexivity]. Qed.

Lemma prefix_head (a : ascii) (p : string) (b : ascii) (s : string) :
  String.prefix (String a p) (String b s) = true -> a = b.
Proof. simpl. destruct (ascii_dec a b); [auto | discriminate]. Qed.

Lemma prefix_other_head (a : ascii) (p : string) (b : ascii) (s : string) :
  a <> b -> String.prefix (String a p) (String b s) = false.
Proof. simpl. destruct (ascii_dec a b); [contradiction | reflexivity]. Qed.

Lemma prefix_append (s p : string) : String.prefix s (s ++ p) = true.
Proof.
  induction s as [|c s IH]; simpl.
  - apply prefix_nil.
  - destruct (ascii_dec c c) as [_|Hne]; [exact IH | contradiction].
Qed.

Lemma prefix_append_left (p h x : string) :
  String.prefix p h = true -> String.prefix p (h ++ x) = true.
Proof.
  revert h. induction p as [|c p IH]; intros h.
  - intros _. apply prefix_nil.
  - destruct h as [|c' h]; [discriminate|]. simpl.
    destruct (ascii_dec c c'); [apply IH | discriminate].
Qed.

Lemma prefix_enough (s a b : string) :
  (String.length s <= String.length a)%nat ->
  String.prefix s (a ++ b) = String.prefix s a.
Proof.
  revert a. induction s as [|c s IH]; intros a Hlen.
  - rewrite !prefix_nil. reflexivity.
  - destruct a as [|c' a]; simpl in *; [lia|].
    destruct (ascii_dec c c'); [apply IH; lia | reflexivity].
Qed.

Lemma drop_append (s p : string) : drop (String.length s) (s ++ p) = p.
Proof.
  induction s as [|c s IH]; simpl; [reflexivity | exact IH].
Qed.

Lemma drop_length (n : nat) (s : string) :
  String.length (drop n s) = (String.length s - n)%nat.
Proof.
  revert s. induction n as [|n IH]; intros s; simpl.
  - rewrite Nat.sub_0_r. reflexivity.
  - destruct s as [|c s]; simpl; [reflexivity | apply IH].
Qed.

Lemma after_first_unfold (sep s : string) :
  after_first sep s
  = if String.prefix sep s then Some (drop (String.length sep) s)
    else match s with
         | EmptyString => None
         | String _ rest => after_first sep rest
         end.
Proof. destruct s; reflexivity. Qed.

(** The first occurrence of the separator decides: when the header has none
    before the one that ends it, the payload comes back whole. *)
Lemma after_first_payload (sep header payload : string) :
  after_first sep (header ++ sep) = Some EmptyString ->
  after_first sep (header ++ sep ++ payload) = Some payload.
Proof.
  induction header as [|c h IH]; intros Hfirst.
  - simpl append. rewrite after_first_unfold, prefix_append, drop_append.
    reflexivity.
  - simpl append in *.
    rewrite after_first_unfold in Hfirst. rewrite after_first_unfold.
    assert (Hp : String.prefix sep (String c (h ++ sep ++ payload))
                 = String.prefix sep (String c (h ++ sep))).
    { replace (String c (h ++ sep ++ payload))
        with ((String c (h ++ sep)) ++ payload)%string
        by (simpl; rewrite append_assoc; reflexivity).
      apply prefix_enough. simpl. rewrite length_append. lia. }
    rewrite Hp.
    destruct (String.prefix sep (String c (h ++ sep))) eqn:E.
    + exfalso. injection Hfirst as Hd.
      assert (Hl : String.length (drop (String.length sep) (String c (h ++ sep))) = O)
        by (rewrite Hd; reflexivity).
      rewrite drop_length in Hl.
      change (String.length (String c (h ++ sep)))
        with (S (String.length (h ++ sep))) in Hl.
      rewrite length_append in Hl. lia.
    + apply IH. exact Hfirst.
Qed.

(** A video given as a data URI: [create_character] (and the chat route, for
    a [video_url] item) passes on exactly the text after the first
    [base64,], for every payload, when the header of the URI (as
    [data:video/mp4;]) has no [base64,] before the one that ends it. *)
Theorem data_uri_gives_the_payload :
  forall (header payload : string),
    startswith "data:video" header = true \/
    startswith "data:application" header = true ->
    after_first "base64," (header ++ "base64,") = Some EmptyString ->
    strip_data_uri (header ++ "base64," ++ payload) = payload /\
    video_data (read_item (mkChatInputs EmptyString None None None [])
                  (VideoUrlItem (header ++ "base64," ++ payload)))
    = Some payload.
Proof.
  intros header payload Hhead Hfirst.
  assert (Hpay : data_uri_payload (header ++ "base64," ++ payload) = payload).
  { unfold data_uri_payload. rewrite (after_first_payload _ _ payload Hfirst).
    reflexivity. }
  assert (Hdata : startswith "data:video" (header ++ "base64," ++ payload)
                  || startswith "data:application" (header ++ "base64," ++ payload)
                  = true).
  { unfold startswith in *. apply orb_true_iff.
    destruct Hhead as [H|H]; [left | right]; apply prefix_append_left; exact H. }
  assert (Hnot : startswith "http://" (header ++ "base64," ++ payload)
                 || startswith "https://" (header ++ "base64," ++ payload) = false).
  { unfold startswith in *.
    destruct header as [|c h]; [destruct Hhead as [H|H]; discriminate H|].
    assert (Hd : "d"%char = c)
      by (destruct Hhead as [H|H]; exact (prefix_head _ _ _ _ H)).
    subst c. simpl append.
    rewrite !prefix_other_head by discriminate. reflexivity. }
  split.
  - unfold strip_data_uri. rewrite Hnot, Hdata. exact Hpay.
  - unfold read_item. rewrite Hdata. cbv iota. cbn [video_data].
    rewrite Hpay. reflexivity.
Qed.

End DataUriFacts.

Lemma data_uri_gives_the_payload_witness :
  Routes.strip_data_uri "data:video/mp4;base64,AAAAbase64,BBBB" = "AAAAbase64,BBBB".
Proof.
  exact (proj1 (@data_uri_gives_the_payload "data:video/mp4;" "AAAAbase64,BBBB"
                  (or_introl eq_refl) eq_refl)).
Defined.

(** ** More on the routes of the claims *)

Section RouteMoreFacts.

Import Json Routes Remix.

Variable json_loads : string -> option json.
Variable json_dumps : json -> string.
Variable isoformat : datetime -> string.
Variable MODEL_CONFIG : list (string * string).

(** A stored result that is not JSON is answered as a list holding the
    stored text itself, for every model. *)
Theorem get_task_status_falls_back_to_the_text :
  forall (tasks : Tasks.table) (tid : string) (task : Tasks.Task)
         (c : ascii) (rest : string),
    Tasks.get_task tid tasks = Some task ->
    Tasks.result_urls task = Some (String c rest) ->
    json_loads (String c rest) = None ->
    exists resp,
      get_task_status json_loads isoformat tasks tid = Returns resp /\
      result_urls resp = Some [String c rest].
Proof.
  intros tasks tid task c rest Hget Hres Hjson.
  unfold get_task_status, read_result_urls. rewrite Hget, Hres, Hjson. simpl.
  eexists. split; reflexivity.
Qed.

(** [get_task_status] raises 404 exactly for the ids no task has, and raises
    nothing but 404 and 500; a task with no stored result (NULL or empty) is
    answered with no [result_urls]. *)
Theorem get_task_status_errors :
  forall (tasks : Tasks.table) (tid : string),
    (Tasks.get_task tid tasks = None <->
     get_task_status json_loads isoformat tasks tid
     = Raises (HTTPException 404 (Detail ("Task " ++ tid ++ " not found")))) /\
    (forall code d,
       get_task_status json_loads isoformat tasks tid = Raises (HTTPException code d) ->
       code = 404 \/ code = 500) /\
    (forall task,
       Tasks.get_task tid tasks = Some task ->
       str_truthy (Tasks.result_urls task) = false ->
       exists resp,
         get_task_status json_loads isoformat tasks tid = Returns resp /\
         result_urls resp = None).
Proof.
  intros tasks tid. unfold get_task_status. split; [|split].
  - destruct (Tasks.get_task tid tasks) as [task|]; split; intros H;
      try reflexivity; try discriminate.
    destruct (validate_result_urls (read_result_urls json_loads task));
      discriminate.
  - intros code d. destruct (Tasks.get_task tid tasks) as [task|].
    + destruct (validate_result_urls (read_result_urls json_loads task));
        [discriminate | intros [= <- _]; right; reflexivity].
    + intros [= <- _]. left. reflexivity.
  - intros task -> Hnone. unfold read_result_urls.
    destruct (Tasks.result_urls task) as [[|c rest]|]; try discriminate;
      simpl; eexists; split; reflexivity.
Qed.

(** With the request model of [models.py], [create_character] never calls the
    generation handler: every path to a call reads [request.timestamps], which
    [CharacterCreateRequest] does not have.  A streaming call is answered by
    one error event and the terminator. *)
Theorem create_character_never_reaches_the_handler :
  forall (h : option GenerationHandler) (request : CharacterCreateRequest),
    snd (create_character json_dumps MODEL_CONFIG h request) = [] /\
    (forall handler model_config,
       h = Some handler ->
       lookup_model MODEL_CONFIG "sora2-landscape-10s" = inr model_config ->
       async_mode request = false -> stream request = true ->
       fst (create_character json_dumps MODEL_CONFIG h request)
       = Returns (StreamingResponse
           [sse (json_dumps
                   (server_error
                      "'CharacterCreateRequest' object has no attribute 'timestamps'"));
            DONE])).
Proof.
  intros h request. split.
  - unfold create_character. destruct h as [handler|]; [|reflexivity].
    destruct (async_mode request); [reflexivity|].
    destruct (lookup_model MODEL_CONFIG "sora2-landscape-10s"); [reflexivity|].
    destruct (stream request); reflexivity.
  - intros handler model_config -> Hcfg Hasync Hstream.
    unfold create_character. rewrite Hasync, Hcfg, Hstream. reflexivity.
Qed.

(** The id [_extract_remix_id] returns is one it recognises: extracting from
    the result gives the result again (so an id taken from a prompt and passed
    on through the text is found unchanged). *)
Theorem extract_remix_id_is_idempotent :
  forall (text : string),
    _extract_remix_id (_extract_remix_id text) = _extract_remix_id text.
Proof.
  intros text.
  destruct (extract_is_empty_or_occurs text) as [->|(pre & post & _ & Hshape)];
    [reflexivity|].
  remember (_extract_remix_id text) as m eqn:Hm. clear Hm.
  rewrite extract_is_search.
  assert (Hmh : match_here m = Some m).
  { pose proof (match_here_complete EmptyString Hshape) as H.
    replace (m ++ EmptyString)%string with m in H; [exact H|].
    clear. induction m as [|c m IH]; simpl; [reflexivity | rewrite <- IH; reflexivity]. }
  destruct m as [|c rest]; [reflexivity|].
  rewrite re_search_cons, Hmh. reflexivity.
Qed.

End RouteMoreFacts.

Lemma get_task_status_falls_back_to_the_text_witness :
  exists resp,
    Routes.get_task_status Sample.loads Sample.isoformat
      [Tasks.mkTask (Some 3) "video_2" 1 "sora2-landscape-10s" "a red fox"
         "completed" 100 (Some "https://cdn.example.com/b.mp4") None (Some 10) (Some 30)]
      "video_2" = Routes.Returns resp /\
    Routes.result_urls resp = Some ["https://cdn.example.com/b.mp4"].
Proof.
  exact (@get_task_status_falls_back_to_the_text Sample.loads Sample.isoformat
           [Tasks.mkTask (Some 3) "video_2" 1 "sora2-landscape-10s" "a red fox"
              "completed" 100 (Some "https://cdn.example.com/b.mp4") None
              (Some 10) (Some 30)]
           "video_2" _ "h"%char "ttps://cdn.example.com/b.mp4"
           eq_refl eq_refl eq_refl).
Defined.
